(** * cprocessing: primitives.cpp

    A shallow embedding of the primitive-drawing unit of the cprocessing
    library ([src/primitives.cpp]) and the properties its specification
    states about it.

    Conventions of the embedding.
    - C++ [double] values are idealised as real numbers ([R]); [cos], [sin]
      and [M_PI] are the real functions and constant.  Rounding is therefore
      outside the model.
    - C++ [int] is a 32-bit two's-complement integer: every arithmetic
      result is passed through [wrap_int].  [unsigned] is a 32-bit natural
      number, reached through [to_unsigned].
    - The file-scope statics, the two colour globals and the stream of calls
      issued to the OpenGL backend form one explicit [state]; every function
      of the unit is a computation in a state-and-error monad.
    - The three places where the C++ text has no defined result (a failed
      [assert], [operator[]] beyond the end of a vector, a division whose
      divisor is zero) are the three values of [error]. *)

From Stdlib Require Import ZArith List Bool Lia Reals Lra.
From ExtLib Require Import Structures.Monad Structures.MonadState Structures.MonadExc.
From ExtLib Require Import Data.Monads.StateMonad Data.Monads.EitherMonad.
Import ListNotations.
Import MonadNotation.

#[local] Existing Instance Monad_stateT.

Local Open Scope Z_scope.

(** ** Machine integers *)

Definition INT_MAX : Z := 2147483647.
Definition INT_MIN : Z := -2147483648.
Definition UINT_MAX : Z := 4294967295.

(** The values an [int] can hold. *)
Definition is_int (z : Z) : Prop := INT_MIN <= z <= INT_MAX.

(** The values an [unsigned] can hold. *)
Definition is_unsigned (z : Z) : Prop := 0 <= z <= UINT_MAX.

(** Result of an [int] operation whose mathematical value is [z]. *)
Definition wrap_int (z : Z) : Z := (z + 2147483648) mod 4294967296 - 2147483648.

(** Conversion of an [int] to [unsigned]. *)
Definition to_unsigned (z : Z) : Z := z mod 4294967296.

(** ** Data of the header [cprocessing.hpp]

    The header is not among the sources of the unit; the three declarations
    below follow the specification's data model. *)

(** Modelled from the spec: [PVector], the header's vertex class, a
    3-component floating-point spatial coordinate (x, y, z), built by
    [PVector (x, y, z)]. *)
Record PVector : Type := mkPVector { vx : R; vy : R; vz : R }.

(** Modelled from the spec: the type of [fillColor] and [strokeColor], an
    RGBA byte quadruple; [rgba3] stands for [rgba[3]], the alpha. *)
Record color : Type := mkColor { rgba0 : Z; rgba1 : Z; rgba2 : Z; rgba3 : Z }.

(** Modelled from the spec: the header's constants [PI] and [TWO_PI], the
    half and the full revolution of section 4.4.  [PI] is the constant of
    the real numbers, which also stands for [M_PI] of <cmath>. *)
Definition TWO_PI : R := (2 * PI)%R.

(** ** The OpenGL backend, as the stream of calls it receives *)

Inductive GLenum : Type :=
| GL_POINTS | GL_LINES | GL_LINE_LOOP | GL_TRIANGLES | GL_QUADS | GL_QUAD_STRIP
| GL_POLYGON
| GL_VERTEX_ARRAY | GL_NORMAL_ARRAY
| GL_DOUBLE | GL_UNSIGNED_INT
| GL_FRONT_AND_BACK | GL_FILL | GL_LINE
| GL_MODELVIEW
| GL_POLYGON_OFFSET_FILL | GL_LIGHTING | GL_ENABLE_BIT.

(** What a pointer argument designates: a local array (with its contents),
    or an element of one of the three cached vectors. *)
Inductive pointer : Type :=
| addr_local (a : list R)
| addr_ellipseVtx (i : nat)
| addr_sphereVtx (i : nat)
| addr_sphereIdx (i : nat).

Inductive glcall : Type :=
| glColor4ubv (c : color)
| glBegin (mode : GLenum)
| glEnd
| glVertex3d (x y z : R)
| glEnableClientState (cap : GLenum)
| glDisableClientState (cap : GLenum)
| glVertexPointer (size : Z) (type : GLenum) (stride : Z) (p : pointer)
| glNormalPointer (type : GLenum) (stride : Z) (p : pointer)
| glPolygonMode (face mode : GLenum)
| glDrawArrays (mode : GLenum) (first count : Z)
| glDrawElements (mode : GLenum) (count : Z) (type : GLenum) (p : pointer)
| glMatrixMode (mode : GLenum)
| glPushMatrix
| glPopMatrix
| glTranslatef (x y z : R)
| glScalef (x y z : R)
| glScaled (x y z : R)
| glEnable (cap : GLenum)
| glDisable (cap : GLenum)
| glPushAttrib (mask : GLenum)
| glPopAttrib.

(** ** Program state *)

(** The statics of the unit live in the global namespace; the function
    [cprocessing::ellipseMode] reads and writes the static [::ellipseMode]. *)
Module Globals.

Record state : Type := mkState {
  ellipseMode : Z;
  ellipseVtx : list PVector;
  ures : Z;
  vres : Z;
  sphereVtx : list PVector;
  sphereIdx : list Z;
  fillColor : color;
  strokeColor : color;
  gl : list glcall
}.

Definition set_ellipseMode (m : Z) (s : state) : state :=
  mkState m (ellipseVtx s) (ures s) (vres s) (sphereVtx s) (sphereIdx s)
          (fillColor s) (strokeColor s) (gl s).

Definition set_ellipseVtx (v : list PVector) (s : state) : state :=
  mkState (ellipseMode s) v (ures s) (vres s) (sphereVtx s) (sphereIdx s)
          (fillColor s) (strokeColor s) (gl s).

Definition set_ures (u : Z) (s : state) : state :=
  mkState (ellipseMode s) (ellipseVtx s) u (vres s) (sphereVtx s) (sphereIdx s)
          (fillColor s) (strokeColor s) (gl s).

Definition set_vres (v : Z) (s : state) : state :=
  mkState (ellipseMode s) (ellipseVtx s) (ures s) v (sphereVtx s) (sphereIdx s)
          (fillColor s) (strokeColor s) (gl s).

Definition set_sphereVtx (v : list PVector) (s : state) : state :=
  mkState (ellipseMode s) (ellipseVtx s) (ures s) (vres s) v (sphereIdx s)
          (fillColor s) (strokeColor s) (gl s).

Definition set_sphereIdx (v : list Z) (s : state) : state :=
  mkState (ellipseMode s) (ellipseVtx s) (ures s) (vres s) (sphereVtx s) v
          (fillColor s) (strokeColor s) (gl s).

Definition set_gl (t : list glcall) (s : state) : state :=
  mkState (ellipseMode s) (ellipseVtx s) (ures s) (vres s) (sphereVtx s)
          (sphereIdx s) (fillColor s) (strokeColor s) t.

End Globals.

Abbreviation state := Globals.state.

(** ** The monad of the unit's functions *)

Inductive error : Type :=
| AssertionFailure
| OutOfRange
| DivisionByZero.

Definition M : Type -> Type := stateT state (sum error).

(** Running a computation from a state. *)
Definition run {A : Type} (m : M A) (s : state) : error + (A * state) :=
  runStateT m s.

(** The error a computation stops with, if any. *)
Definition failure {A : Type} (m : M A) (s : state) : option error :=
  match run m s with
  | inr _ => None
  | inl e => Some e
  end.

Local Open Scope monad_scope.

(** One call into the backend. *)
Definition emit (c : glcall) : M unit :=
  s <- get ;; put (Globals.set_gl (Globals.gl s ++ [c]) s).

(** [if (c) { body }] *)
Definition when (c : bool) (body : M unit) : M unit :=
  if c then body else ret tt.

(** [for (T i = start; ...; i++) body], [k] iterations remaining. *)
Fixpoint for_from (i : Z) (k : nat) (body : Z -> M unit) : M unit :=
  match k with
  | O => ret tt
  | S k' => body i ;; for_from (i + 1) k' body
  end.

(** [for (T i = 0; i < n; i++) body] where [n] is a value of [T]: the body
    runs for i = 0, ..., n-1, and the counter never leaves the range. *)
Definition for_lt (n : Z) (body : Z -> M unit) : M unit :=
  for_from 0 (Z.to_nat n) body.

(** [a / d] with [a] a [double] and [d] an integer converted to [double].
    C++ defines no result for a zero divisor, and the call stops here.  On
    a platform with IEEE arithmetic the quotient is an infinity or not a
    number, and the function goes on: [sphereDetail_loops] follows it
    there. *)
Definition fdiv (a : R) (d : Z) : M R :=
  if d =? 0 then raise DivisionByZero else ret (a / IZR d)%R.

(** [&v[i]] (or [v[i].array()]): the element has to exist. *)
Definition element {A : Type} (v : list A) (i : nat) (addr : nat -> pointer) : M pointer :=
  match nth_error v i with
  | Some _ => ret (addr i)
  | None => raise OutOfRange
  end.

(** [v.push_back (a)] on each of the three vectors. *)
Definition ellipseVtx_push_back (a : PVector) : M unit :=
  s <- get ;; put (Globals.set_ellipseVtx (Globals.ellipseVtx s ++ [a]) s).

Definition sphereVtx_push_back (a : PVector) : M unit :=
  s <- get ;; put (Globals.set_sphereVtx (Globals.sphereVtx s ++ [a]) s).

Definition sphereIdx_push_back (a : Z) : M unit :=
  s <- get ;; put (Globals.set_sphereIdx (Globals.sphereIdx s ++ [a]) s).

(** ** The functions of namespace [cprocessing] *)

Module cprocessing.

Section Modes.

(** The four mode constants of the header, which is not among the
    sources: they are parameters of the unit. *)
Variables CENTER RADIUS CORNER CORNERS : Z.

Definition line (x0 y0 z0 x1 y1 z1 : R) : M unit :=
  strokeColor <- gets Globals.strokeColor ;;
  when (rgba3 strokeColor >? 0) (
    emit (glColor4ubv strokeColor) ;;
    emit (glBegin GL_LINES) ;;
    emit (glVertex3d x0 y0 z0) ;;
    emit (glVertex3d x1 y1 z1) ;;
    emit glEnd).

Definition triangle (x0 y0 z0 x1 y1 z1 x2 y2 z2 : R) : M unit :=
  let vertices := [x0; y0; z0; x1; y1; z1; x2; y2; z2] in
  emit (glEnableClientState GL_VERTEX_ARRAY) ;;
  emit (glVertexPointer 3 GL_DOUBLE 0 (addr_local vertices)) ;;
  fillColor <- gets Globals.fillColor ;;
  when (rgba3 fillColor >? 0) (
    emit (glColor4ubv fillColor) ;;
    emit (glPolygonMode GL_FRONT_AND_BACK GL_FILL) ;;
    emit (glDrawArrays GL_TRIANGLES 0 3)) ;;
  strokeColor <- gets Globals.strokeColor ;;
  when (rgba3 strokeColor >? 0) (
    emit (glColor4ubv strokeColor) ;;
    emit (glPolygonMode GL_FRONT_AND_BACK GL_LINE) ;;
    emit (glDrawArrays GL_TRIANGLES 0 3)) ;;
  emit (glDisableClientState GL_VERTEX_ARRAY).

Definition quad (x0 y0 x1 y1 x2 y2 x3 y3 : R) : M unit :=
  let vertices := [x0; y0; x1; y1; x2; y2; x3; y3] in
  emit (glEnableClientState GL_VERTEX_ARRAY) ;;
  emit (glVertexPointer 2 GL_DOUBLE 0 (addr_local vertices)) ;;
  fillColor <- gets Globals.fillColor ;;
  when (rgba3 fillColor >? 0) (
    emit (glColor4ubv fillColor) ;;
    emit (glPolygonMode GL_FRONT_AND_BACK GL_FILL) ;;
    emit (glDrawArrays GL_QUADS 0 4)) ;;
  strokeColor <- gets Globals.strokeColor ;;
  when (rgba3 strokeColor >? 0) (
    emit (glColor4ubv strokeColor) ;;
    emit (glPolygonMode GL_FRONT_AND_BACK GL_LINE) ;;
    emit (glDrawArrays GL_QUADS 0 4)) ;;
  emit (glDisableClientState GL_VERTEX_ARRAY).

Definition point (x y z : R) : M unit :=
  strokeColor <- gets Globals.strokeColor ;;
  when (rgba3 strokeColor >? 0) (
    emit (glColor4ubv strokeColor) ;;
    emit (glBegin GL_POINTS) ;;
    emit (glVertex3d x y z) ;;
    emit glEnd).

Definition ellipseDetail (n : Z) : M unit :=
  modify (Globals.set_ellipseVtx []) ;;
  for_lt n (fun i =>
    ang <- fdiv (PI * 2 * IZR i) n ;;
    let x := (cos ang / 2)%R in
    let y := (sin ang / 2)%R in
    ellipseVtx_push_back (mkPVector x y 0)).

(** [assert (c)] of <cassert>, with NDEBUG not defined. *)
Definition assert (c : bool) : M unit :=
  if c then ret tt else raise AssertionFailure.

Definition ellipseMode (mode : Z) : M unit :=
  assert ((mode =? CENTER) || (mode =? RADIUS) || (mode =? CORNER) || (mode =? CORNERS)) ;;
  modify (Globals.set_ellipseMode mode) ;;
  ret tt.

(** The [switch] at the head of [ellipse]: the four arguments as the mode
    leaves them.  There is no [case CORNER] and no [default]. *)
Definition ellipse_switch (mode : Z) (x y width height : R) : R * R * R * R :=
  if mode =? CENTER then ((x - width / 2)%R, (y - height / 2)%R, width, height)
  else if mode =? RADIUS then ((x - width)%R, (y - height)%R, (width * 2)%R, (height * 2)%R)
  else if mode =? CORNERS then (x, y, (width - x)%R, (height - y)%R)
  else (x, y, width, height).

Definition ellipse (x y width height : R) : M unit :=
  mode <- gets Globals.ellipseMode ;;
  let '(x, y, width, height) := ellipse_switch mode x y width height in
  emit (glMatrixMode GL_MODELVIEW) ;;
  emit glPushMatrix ;;
  emit (glTranslatef x y 0) ;;
  emit (glScalef width height 1) ;;
  emit (glTranslatef (1 / 2) (1 / 2) 0) ;;
  emit (glEnableClientState GL_VERTEX_ARRAY) ;;
  ellipseVtx <- gets Globals.ellipseVtx ;;
  p <- element ellipseVtx 0 addr_ellipseVtx ;;
  emit (glVertexPointer 3 GL_DOUBLE 0 p) ;;
  fillColor <- gets Globals.fillColor ;;
  when (rgba3 fillColor >? 0) (
    emit (glColor4ubv fillColor) ;;
    emit (glPolygonMode GL_FRONT_AND_BACK GL_FILL) ;;
    emit (glDrawArrays GL_POLYGON 0 (wrap_int (Z.of_nat (length ellipseVtx))))) ;;
  strokeColor <- gets Globals.strokeColor ;;
  when (rgba3 strokeColor >? 0) (
    emit (glColor4ubv strokeColor) ;;
    emit (glDrawArrays GL_LINE_LOOP 0 (wrap_int (Z.of_nat (length ellipseVtx))))) ;;
  emit (glDisableClientState GL_VERTEX_ARRAY) ;;
  emit glPopMatrix.

Definition sphereDetail (ur vr : Z) : M unit :=
  modify (Globals.set_ures ur) ;;
  modify (Globals.set_vres vr) ;;
  modify (Globals.set_sphereVtx []) ;;
  for_lt vr (fun itheta =>
    q <- fdiv TWO_PI (wrap_int (vr - 1)) ;;
    let theta := (q * IZR itheta)%R in
    let sintheta := sin theta in
    let costheta := cos theta in
    for_lt ur (fun iphi =>
      q <- fdiv PI (wrap_int (ur - 1)) ;;
      let phi := (q * IZR iphi)%R in
      let sinphi := sin phi in
      let cosphi := cos phi in
      let y := cosphi in
      let x := (sinphi * costheta)%R in
      let z := (sinphi * sintheta)%R in
      sphereVtx_push_back (mkPVector x y z))) ;;
  modify (Globals.set_sphereIdx []) ;;
  for_lt (wrap_int (vr - 1)) (fun icol =>
    for_lt ur (fun irow =>
      sphereIdx_push_back (to_unsigned (wrap_int (wrap_int (icol * ur) + irow))) ;;
      sphereIdx_push_back
        (to_unsigned (wrap_int (wrap_int (wrap_int (icol + 1) * ur) + irow))))).

(** The element count [ures*(vres-1)*2] that [sphere] computes in [int]. *)
Definition sphere_count (ures vres : Z) : Z :=
  wrap_int (wrap_int (ures * wrap_int (vres - 1)) * 2).

Definition sphere (radius : R) : M unit :=
  emit glPushMatrix ;;
  emit (glScaled radius radius radius) ;;
  emit (glEnableClientState GL_VERTEX_ARRAY) ;;
  sphereVtx <- gets Globals.sphereVtx ;;
  p <- element sphereVtx 0 addr_sphereVtx ;;
  emit (glVertexPointer 3 GL_DOUBLE 0 p) ;;
  emit (glEnableClientState GL_NORMAL_ARRAY) ;;
  p <- element sphereVtx 0 addr_sphereVtx ;;
  emit (glNormalPointer GL_DOUBLE 0 p) ;;
  fillColor <- gets Globals.fillColor ;;
  when (rgba3 fillColor >? 0) (
    emit (glColor4ubv fillColor) ;;
    emit (glPolygonMode GL_FRONT_AND_BACK GL_FILL) ;;
    emit (glEnable GL_POLYGON_OFFSET_FILL) ;;
    ures <- gets Globals.ures ;;
    vres <- gets Globals.vres ;;
    sphereIdx <- gets Globals.sphereIdx ;;
    p <- element sphereIdx 0 addr_sphereIdx ;;
    emit (glDrawElements GL_QUAD_STRIP (sphere_count ures vres) GL_UNSIGNED_INT p) ;;
    emit (glDisable GL_POLYGON_OFFSET_FILL)) ;;
  strokeColor <- gets Globals.strokeColor ;;
  when (rgba3 strokeColor >? 0) (
    emit (glPushAttrib GL_ENABLE_BIT) ;;
    emit (glDisable GL_LIGHTING) ;;
    emit (glColor4ubv strokeColor) ;;
    emit (glPolygonMode GL_FRONT_AND_BACK GL_LINE) ;;
    ures <- gets Globals.ures ;;
    vres <- gets Globals.vres ;;
    sphereIdx <- gets Globals.sphereIdx ;;
    p <- element sphereIdx 0 addr_sphereIdx ;;
    emit (glDrawElements GL_QUAD_STRIP (sphere_count ures vres) GL_UNSIGNED_INT p) ;;
    emit glPopAttrib) ;;
  emit (glDisableClientState GL_VERTEX_ARRAY) ;;
  emit (glDisableClientState GL_NORMAL_ARRAY) ;;
  emit glPopMatrix.

End Modes.

(** The statics as the program starts: [::ellipseMode = CENTER], empty
    vectors, zero-initialised [ures] and [vres]; the colours are whatever
    the rest of the library holds, and nothing has reached the backend. *)
Definition initial (CENTER : Z) (fill stroke : color) : state :=
  Globals.mkState CENTER [] 0 0 [] [] fill stroke [].

End cprocessing.

(** * Vocabulary of the properties *)

(** The values the counter of [for_from i k] takes, in order. *)
Fixpoint counter_values (i : Z) (k : nat) : list Z :=
  match k with
  | O => []
  | S k' => i :: counter_values (i + 1) k'
  end.

(** Vertex [i] of the mesh [ellipseDetail n] builds. *)
Definition ellipse_vertex (n i : Z) : PVector :=
  let ang := (PI * 2 * IZR i / IZR n)%R in
  mkPVector (cos ang / 2) (sin ang / 2) 0.

Definition ellipse_mesh (n : Z) : list PVector :=
  map (ellipse_vertex n) (counter_values 0 (Z.to_nat n)).

(** Distance of a point from the origin. *)
Definition norm (v : PVector) : R :=
  sqrt (vx v * vx v + vy v * vy v + vz v * vz v).

(** [v] is the point of the plane z = 0 at polar coordinates ([r], [ang]). *)
Definition at_polar (r ang : R) (v : PVector) : Prop :=
  vx v = (r * cos ang)%R /\ vy v = (r * sin ang)%R /\ vz v = 0%R.


(** [v] is the point of the unit sphere at polar angle [phi] (from the y
    axis) and azimuth [theta]. *)
Definition at_spherical (phi theta : R) (v : PVector) : Prop :=
  vx v = (sin phi * cos theta)%R /\ vy v = cos phi /\ vz v = (sin phi * sin theta)%R.

(** Closed forms of the two loops of [sphereDetail]. *)
Definition sphere_vertex (ur vr itheta iphi : Z) : PVector :=
  let theta := (TWO_PI / IZR (wrap_int (vr - 1)) * IZR itheta)%R in
  let phi := (PI / IZR (wrap_int (ur - 1)) * IZR iphi)%R in
  mkPVector (sin phi * cos theta) (cos phi) (sin phi * sin theta).

Definition sphere_vertices (ur vr : Z) : list PVector :=
  flat_map (fun itheta => map (sphere_vertex ur vr itheta) (counter_values 0 (Z.to_nat ur)))
           (counter_values 0 (Z.to_nat vr)).

Definition sphere_index_pair (ur icol irow : Z) : list Z :=
  [to_unsigned (wrap_int (wrap_int (icol * ur) + irow));
   to_unsigned (wrap_int (wrap_int (wrap_int (icol + 1) * ur) + irow))].

Definition sphere_indices (ur vr : Z) : list Z :=
  flat_map (fun icol => flat_map (sphere_index_pair ur icol) (counter_values 0 (Z.to_nat ur)))
           (counter_values 0 (Z.to_nat (wrap_int (vr - 1)))).

(** The state once the backend has received the calls [l] on top of those
    it had received in [s]. *)
Definition issued (l : list glcall) (s : state) : state :=
  Globals.set_gl (Globals.gl s ++ l) s.

(** ** The call stream as the fixed-function pipeline reads it

    The backend is outside the unit; what follows is the part of OpenGL's
    documented behaviour the properties refer to. *)

(** A drawing command rasterizes interiors or outlines. *)
Inductive pass : Type := FillPass | OutlinePass.

Definition polygon_primitive (prim : GLenum) : bool :=
  match prim with
  | GL_TRIANGLES | GL_QUADS | GL_QUAD_STRIP | GL_POLYGON => true
  | _ => false
  end.

(** Points and lines are drawn as such; a polygon primitive is filled under
    polygon mode [GL_FILL] and outlined otherwise. *)
Definition rasterizes (polygon_mode prim : GLenum) : pass :=
  if polygon_primitive prim then
    match polygon_mode with
    | GL_FILL => FillPass
    | _ => OutlinePass
    end
  else OutlinePass.

(** The passes a call stream produces, the polygon mode being
    [polygon_mode] when it starts. *)
Fixpoint passes (polygon_mode : GLenum) (calls : list glcall) : list pass :=
  match calls with
  | [] => []
  | glPolygonMode _ mode :: rest => passes mode rest
  | glDrawArrays prim _ _ :: rest => rasterizes polygon_mode prim :: passes polygon_mode rest
  | glDrawElements prim _ _ _ :: rest => rasterizes polygon_mode prim :: passes polygon_mode rest
  | glBegin prim :: rest => rasterizes polygon_mode prim :: passes polygon_mode rest
  | _ :: rest => passes polygon_mode rest
  end.

Definition is_fill (p : pass) : bool :=
  match p with FillPass => true | OutlinePass => false end.

Definition fill_passes (polygon_mode : GLenum) (calls : list glcall) : nat :=
  length (filter is_fill (passes polygon_mode calls)).

Definition outline_passes (polygon_mode : GLenum) (calls : list glcall) : nat :=
  length (filter (fun p => negb (is_fill p)) (passes polygon_mode calls)).

(** A model-view transform, as the map it applies to object coordinates. *)
Definition transform : Type := PVector -> PVector.

Definition translation (dx dy dz : R) : transform :=
  fun p => mkPVector (vx p + dx) (vy p + dy) (vz p + dz).

Definition scaling (kx ky kz : R) : transform :=
  fun p => mkPVector (kx * vx p) (ky * vy p) (kz * vz p).

(** The array-drawing commands of a call stream, each with the transform in
    force when it is issued.  [cur] is the current matrix and [stack] the
    matrix stack when the stream starts; glTranslate and glScale multiply
    the current matrix on the right, so they act on the vertex first. *)
Fixpoint placed (cur : transform) (stack : list transform) (calls : list glcall)
  : list (glcall * transform) :=
  match calls with
  | [] => []
  | c :: rest =>
    match c with
    | glPushMatrix => placed cur (cur :: stack) rest
    | glPopMatrix =>
      match stack with
      | top :: stack' => placed top stack' rest
      | [] => placed cur [] rest
      end
    | glTranslatef dx dy dz => placed (fun p => cur (translation dx dy dz p)) stack rest
    | glScalef kx ky kz => placed (fun p => cur (scaling kx ky kz p)) stack rest
    | glScaled kx ky kz => placed (fun p => cur (scaling kx ky kz p)) stack rest
    | glDrawArrays _ _ _ => (c, cur) :: placed cur stack rest
    | glDrawElements _ _ _ _ => (c, cur) :: placed cur stack rest
    | _ => placed cur stack rest
    end
  end.

(** The draws of a call stream issued in the caller's coordinates. *)
Definition draws (calls : list glcall) : list (glcall * transform) :=
  placed (fun p => p) [] calls.

(** [T] carries the mesh of diameter 1 centred at the origin to the
    axis-parallel ellipse of centre ([cx], [cy]), width [w] and height [h]. *)
Definition places (T : transform) (cx cy w h : R) : Prop :=
  forall p : PVector, T p = mkPVector (cx + w * vx p) (cy + h * vy p) (vz p).

(** The image of the corner of the mesh's bounding box [-1/2, 1/2]^2 with
    the smallest coordinates, and of the opposite corner. *)
Definition low_corner (T : transform) : PVector := T (mkPVector (- (1 / 2)) (- (1 / 2)) 0).
Definition high_corner (T : transform) : PVector := T (mkPVector (1 / 2) (1 / 2) 0).

(** ** The unit as a whole: its calls and the states it can be in *)

Section Api.

Variables CENTER RADIUS CORNER CORNERS : Z.

(** The mode constants are pairwise different, as the values of one
    enumeration are. *)
Definition distinct_modes : Prop :=
  CENTER <> RADIUS /\ CENTER <> CORNER /\ CENTER <> CORNERS /\
  RADIUS <> CORNER /\ RADIUS <> CORNERS /\ CORNER <> CORNERS.

Definition valid_mode (mode : Z) : Prop :=
  mode = CENTER \/ mode = RADIUS \/ mode = CORNER \/ mode = CORNERS.

Inductive api : Type :=
| Line (x0 y0 z0 x1 y1 z1 : R)
| Triangle (x0 y0 z0 x1 y1 z1 x2 y2 z2 : R)
| Quad (x0 y0 x1 y1 x2 y2 x3 y3 : R)
| Point (x y z : R)
| EllipseDetail (n : Z)
| EllipseMode (mode : Z)
| Ellipse (x y width height : R)
| SphereDetail (ur vr : Z)
| Sphere (radius : R).

Definition call (c : api) : M unit :=
  match c with
  | Line x0 y0 z0 x1 y1 z1 => cprocessing.line x0 y0 z0 x1 y1 z1
  | Triangle x0 y0 z0 x1 y1 z1 x2 y2 z2 => cprocessing.triangle x0 y0 z0 x1 y1 z1 x2 y2 z2
  | Quad x0 y0 x1 y1 x2 y2 x3 y3 => cprocessing.quad x0 y0 x1 y1 x2 y2 x3 y3
  | Point x y z => cprocessing.point x y z
  | EllipseDetail n => cprocessing.ellipseDetail n
  | EllipseMode mode => cprocessing.ellipseMode CENTER RADIUS CORNER CORNERS mode
  | Ellipse x y width height => cprocessing.ellipse CENTER RADIUS CORNERS x y width height
  | SphereDetail ur vr => cprocessing.sphereDetail ur vr
  | Sphere radius => cprocessing.sphere radius
  end.

(** The integer arguments are values of their C++ types. *)
Definition well_typed (c : api) : Prop :=
  match c with
  | EllipseDetail n => is_unsigned n
  | EllipseMode mode => is_unsigned mode
  | SphereDetail ur vr => is_int ur /\ is_int vr
  | _ => True
  end.

Definition is_EllipseMode (c : api) : bool :=
  match c with EllipseMode _ => true | _ => false end.

Definition is_SphereDetail (c : api) : bool :=
  match c with SphereDetail _ _ => true | _ => false end.

(** A sequence of calls, one after the other. *)
Fixpoint calls (cs : list api) : M unit :=
  match cs with
  | [] => ret tt
  | c :: cs' => call c ;; calls cs'
  end.

(** The states the program can be in between two calls of the unit: it
    starts in [initial]; a call that returns takes it to the next state;
    the rest of the library may change the two colours and talk to the
    backend.  A call of [sphereDetail] that divides by zero does not
    return ([fdiv]): the states a platform that goes on past the division
    would be in are not among these. *)
Inductive reachable : state -> Prop :=
| reachable_initial (fill stroke : color) :
    reachable (cprocessing.initial CENTER fill stroke)
| reachable_call (c : api) (s s' : state) :
    reachable s -> well_typed c -> run (call c) s = inr (tt, s') -> reachable s'
| reachable_colors (fill stroke : color) (s : state) :
    reachable s ->
    reachable (Globals.mkState (Globals.ellipseMode s) (Globals.ellipseVtx s)
                 (Globals.ures s) (Globals.vres s) (Globals.sphereVtx s)
                 (Globals.sphereIdx s) fill stroke (Globals.gl s))
| reachable_backend (l : list glcall) (s : state) :
    reachable s -> reachable (issued l s).

End Api.

(** ** The call streams of the two mesh-backed draws

    What [ellipse] and [sphere] send to the backend when they return; the
    lemmas [run_ellipse] and [run_sphere] derive them from the code. *)

Definition ellipse_calls (fill stroke : color) (size : nat) (args : R * R * R * R)
  : list glcall :=
  let '(x, y, width, height) := args in
  [glMatrixMode GL_MODELVIEW; glPushMatrix;
   glTranslatef x y 0; glScalef width height 1; glTranslatef (1 / 2) (1 / 2) 0;
   glEnableClientState GL_VERTEX_ARRAY;
   glVertexPointer 3 GL_DOUBLE 0 (addr_ellipseVtx 0)]
  ++ (if rgba3 fill >? 0
      then [glColor4ubv fill; glPolygonMode GL_FRONT_AND_BACK GL_FILL;
            glDrawArrays GL_POLYGON 0 (wrap_int (Z.of_nat size))]
      else [])
  ++ (if rgba3 stroke >? 0
      then [glColor4ubv stroke;
            glDrawArrays GL_LINE_LOOP 0 (wrap_int (Z.of_nat size))]
      else [])
  ++ [glDisableClientState GL_VERTEX_ARRAY; glPopMatrix].

Definition sphere_calls (fill stroke : color) (ures vres : Z) (radius : R)
  : list glcall :=
  [glPushMatrix; glScaled radius radius radius;
   glEnableClientState GL_VERTEX_ARRAY;
   glVertexPointer 3 GL_DOUBLE 0 (addr_sphereVtx 0);
   glEnableClientState GL_NORMAL_ARRAY;
   glNormalPointer GL_DOUBLE 0 (addr_sphereVtx 0)]
  ++ (if rgba3 fill >? 0
      then [glColor4ubv fill; glPolygonMode GL_FRONT_AND_BACK GL_FILL;
            glEnable GL_POLYGON_OFFSET_FILL;
            glDrawElements GL_QUAD_STRIP (cprocessing.sphere_count ures vres)
                           GL_UNSIGNED_INT (addr_sphereIdx 0);
            glDisable GL_POLYGON_OFFSET_FILL]
      else [])
  ++ (if rgba3 stroke >? 0
      then [glPushAttrib GL_ENABLE_BIT; glDisable GL_LIGHTING;
            glColor4ubv stroke; glPolygonMode GL_FRONT_AND_BACK GL_LINE;
            glDrawElements GL_QUAD_STRIP (cprocessing.sphere_count ures vres)
                           GL_UNSIGNED_INT (addr_sphereIdx 0);
            glPopAttrib]
      else [])
  ++ [glDisableClientState GL_VERTEX_ARRAY; glDisableClientState GL_NORMAL_ARRAY;
      glPopMatrix].

(** The calls of a stream that change the current matrix. *)
Definition is_matrix_change (c : glcall) : bool :=
  match c with
  | glTranslatef _ _ _ | glScalef _ _ _ | glScaled _ _ _ => true
  | _ => false
  end.

Definition matrix_changes (l : list glcall) : list glcall := filter is_matrix_change l.

(** [T] sends the bounding box [-1/2, 1/2]^2 of the mesh to the box whose
    opposite corners are ([x_lo], [y_lo]) and ([x_hi], [y_hi]). *)
Definition boxed (T : transform) (x_lo y_lo x_hi y_hi : R) : Prop :=
  low_corner T = mkPVector x_lo y_lo 0 /\ high_corner T = mkPVector x_hi y_hi 0.

(** [sphereDetail ur vr] reaches a division by zero: the outer loop runs
    (vr > 0) and divides by vr-1 = 0, or both loops run and the inner one
    divides by ur-1 = 0. *)
Definition divides_by_zero (ur vr : Z) : bool :=
  (0 <? vr) && ((wrap_int (vr - 1) =? 0) || ((0 <? ur) && (wrap_int (ur - 1) =? 0))).

(** The state [sphereDetail ur vr] leaves when it returns. *)
Definition after_sphereDetail (ur vr : Z) (s : state) : state :=
  Globals.set_sphereIdx (sphere_indices ur vr)
    (Globals.set_sphereVtx (sphere_vertices ur vr)
       (Globals.set_vres vr (Globals.set_ures ur s))).

(** ** Concrete instances

    Processing's values of the four mode constants, and the state of a
    program that starts with a white fill and a black stroke and has called
    [ellipseDetail 4] and [sphereDetail 2 2]. *)
Definition white : color := mkColor 255 255 255 255.
Definition black : color := mkColor 0 0 0 255.
Definition transparent : color := mkColor 0 0 0 0.

Definition configured (mode : Z) (fill stroke : color) : state :=
  after_sphereDetail 2 2
    (Globals.set_ellipseVtx (ellipse_mesh 4) (cprocessing.initial mode fill stroke)).

(** * Vocabulary of the further properties *)

(** ** The call streams of the four immediate draws *)

Definition line_calls (stroke : color) (x0 y0 z0 x1 y1 z1 : R) : list glcall :=
  if rgba3 stroke >? 0
  then [glColor4ubv stroke; glBegin GL_LINES;
        glVertex3d x0 y0 z0; glVertex3d x1 y1 z1; glEnd]
  else [].

Definition point_calls (stroke : color) (x y z : R) : list glcall :=
  if rgba3 stroke >? 0
  then [glColor4ubv stroke; glBegin GL_POINTS; glVertex3d x y z; glEnd]
  else [].

(** [triangle] and [quad]: a local array of [count] vertices of [size]
    coordinates each, drawn as [prim]. *)
Definition polygon_calls (fill stroke : color) (size : Z) (prim : GLenum) (count : Z)
           (vertices : list R) : list glcall :=
  [glEnableClientState GL_VERTEX_ARRAY;
   glVertexPointer size GL_DOUBLE 0 (addr_local vertices)]
  ++ (if rgba3 fill >? 0
      then [glColor4ubv fill; glPolygonMode GL_FRONT_AND_BACK GL_FILL;
            glDrawArrays prim 0 count]
      else [])
  ++ (if rgba3 stroke >? 0
      then [glColor4ubv stroke; glPolygonMode GL_FRONT_AND_BACK GL_LINE;
            glDrawArrays prim 0 count]
      else [])
  ++ [glDisableClientState GL_VERTEX_ARRAY].

Section Streams.

Variables CENTER RADIUS CORNERS : Z.

(** What a call of the unit sends to the backend when it returns from
    [s]: nothing for the three configuration functions. *)
Definition stream (c : api) (s : state) : list glcall :=
  let fill := Globals.fillColor s in
  let stroke := Globals.strokeColor s in
  match c with
  | Line x0 y0 z0 x1 y1 z1 => line_calls stroke x0 y0 z0 x1 y1 z1
  | Triangle x0 y0 z0 x1 y1 z1 x2 y2 z2 =>
    polygon_calls fill stroke 3 GL_TRIANGLES 3 [x0; y0; z0; x1; y1; z1; x2; y2; z2]
  | Quad x0 y0 x1 y1 x2 y2 x3 y3 =>
    polygon_calls fill stroke 2 GL_QUADS 4 [x0; y0; x1; y1; x2; y2; x3; y3]
  | Point x y z => point_calls stroke x y z
  | Ellipse x y width height =>
    ellipse_calls fill stroke (length (Globals.ellipseVtx s))
      (cprocessing.ellipse_switch CENTER RADIUS CORNERS (Globals.ellipseMode s)
         x y width height)
  | Sphere radius => sphere_calls fill stroke (Globals.ures s) (Globals.vres s) radius
  | EllipseDetail _ | EllipseMode _ | SphereDetail _ _ => []
  end.

End Streams.

(** The draws among the calls of the unit, and those with a fill pass. *)
Definition is_draw (c : api) : bool :=
  match c with
  | EllipseDetail _ | EllipseMode _ | SphereDetail _ _ => false
  | _ => true
  end.

Definition fills (c : api) : bool :=
  match c with
  | Triangle _ _ _ _ _ _ _ _ _ | Quad _ _ _ _ _ _ _ _ | Ellipse _ _ _ _ | Sphere _ => true
  | _ => false
  end.

Definition is_EllipseDetail (c : api) : bool :=
  match c with EllipseDetail _ => true | _ => false end.

(** ** More of the backend's state

    As with [passes] and [placed], the definitions below read a call stream
    the way OpenGL's fixed-function pipeline is documented to. *)


(** The polygon mode once a stream has been processed. *)
Fixpoint polygon_mode_after (polygon_mode : GLenum) (calls : list glcall) : GLenum :=
  match calls with
  | [] => polygon_mode
  | glPolygonMode _ mode :: rest => polygon_mode_after mode rest
  | _ :: rest => polygon_mode_after polygon_mode rest
  end.

(** Client-side array state: which of the vertex and normal arrays are
    enabled, and where they point. *)
Record arrays : Type := mkArrays {
  vertex_array : bool;
  normal_array : bool;
  vertex_pointer : option pointer;
  normal_pointer : option pointer
}.

Definition arrays_step (c : glcall) (a : arrays) : arrays :=
  match c with
  | glEnableClientState GL_VERTEX_ARRAY =>
    mkArrays true (normal_array a) (vertex_pointer a) (normal_pointer a)
  | glEnableClientState GL_NORMAL_ARRAY =>
    mkArrays (vertex_array a) true (vertex_pointer a) (normal_pointer a)
  | glDisableClientState GL_VERTEX_ARRAY =>
    mkArrays false (normal_array a) (vertex_pointer a) (normal_pointer a)
  | glDisableClientState GL_NORMAL_ARRAY =>
    mkArrays (vertex_array a) false (vertex_pointer a) (normal_pointer a)
  | glVertexPointer _ _ _ p =>
    mkArrays (vertex_array a) (normal_array a) (Some p) (normal_pointer a)
  | glNormalPointer _ _ p =>
    mkArrays (vertex_array a) (normal_array a) (vertex_pointer a) (Some p)
  | _ => a
  end.

Definition arrays_after (a : arrays) (calls : list glcall) : arrays :=
  fold_left (fun a c => arrays_step c a) calls a.

(** The array draws of a stream, each with the array state it reads. *)
Fixpoint array_draws (a : arrays) (calls : list glcall) : list (glcall * arrays) :=
  match calls with
  | [] => []
  | c :: rest =>
    match c with
    | glDrawArrays _ _ _ => (c, a) :: array_draws a rest
    | glDrawElements _ _ _ _ => (c, a) :: array_draws a rest
    | _ => array_draws (arrays_step c a) rest
    end
  end.

(** Server-side capabilities the unit touches. *)
Record enables : Type := mkEnables {
  lighting : bool;
  polygon_offset_fill : bool
}.

Definition set_capability (cap : GLenum) (b : bool) (e : enables) : enables :=
  match cap with
  | GL_LIGHTING => mkEnables b (polygon_offset_fill e)
  | GL_POLYGON_OFFSET_FILL => mkEnables (lighting e) b
  | _ => e
  end.

(** The capabilities and the attribute stack once a stream has been
    processed, and the capabilities each draw is issued under.
    glPushAttrib (GL_ENABLE_BIT) saves the capabilities, glPopAttrib
    restores the last saved ones. *)
Fixpoint enables_after (e : enables) (saved : list enables) (calls : list glcall)
  : enables * list enables :=
  match calls with
  | [] => (e, saved)
  | c :: rest =>
    match c with
    | glEnable cap => enables_after (set_capability cap true e) saved rest
    | glDisable cap => enables_after (set_capability cap false e) saved rest
    | glPushAttrib GL_ENABLE_BIT => enables_after e (e :: saved) rest
    | glPopAttrib =>
      match saved with
      | top :: saved' => enables_after top saved' rest
      | [] => enables_after e [] rest
      end
    | _ => enables_after e saved rest
    end
  end.

Fixpoint drawn_under (e : enables) (saved : list enables) (calls : list glcall)
  : list (glcall * enables) :=
  match calls with
  | [] => []
  | c :: rest =>
    match c with
    | glEnable cap => drawn_under (set_capability cap true e) saved rest
    | glDisable cap => drawn_under (set_capability cap false e) saved rest
    | glPushAttrib GL_ENABLE_BIT => drawn_under e (e :: saved) rest
    | glPopAttrib =>
      match saved with
      | top :: saved' => drawn_under top saved' rest
      | [] => drawn_under e [] rest
      end
    | glDrawArrays _ _ _ => (c, e) :: drawn_under e saved rest
    | glDrawElements _ _ _ _ => (c, e) :: drawn_under e saved rest
    | _ => drawn_under e saved rest
    end
  end.

(** Square of the distance between two points. *)
Definition dist2 (a b : PVector) : R :=
  ((vx a - vx b) * (vx a - vx b) + (vy a - vy b) * (vy a - vy b) +
   (vz a - vz b) * (vz a - vz b))%R.

(** ** Past a division by zero

    The functions of the unit, as embedded above, stop where C++ defines
    no result.  A platform with IEEE arithmetic does not stop at a division
    by zero: the quotient is an infinity or not a number, and the function
    goes on.  Such values are beyond [R], but the control flow of
    [sphereDetail] does not depend on them. *)

(** [sphereDetail] with the arithmetic of lines 207 to 216 taken out: the
    two assignments, the clears, the loops and the push_backs are those of
    the code, and [vertex itheta iphi] stands for the vector pushed at
    line 217. *)
Definition sphereDetail_loops (vertex : Z -> Z -> PVector) (ur vr : Z) : M unit :=
  modify (Globals.set_ures ur) ;;
  modify (Globals.set_vres vr) ;;
  modify (Globals.set_sphereVtx []) ;;
  for_lt vr (fun itheta =>
    for_lt ur (fun iphi =>
      sphereVtx_push_back (vertex itheta iphi))) ;;
  modify (Globals.set_sphereIdx []) ;;
  for_lt (wrap_int (vr - 1)) (fun icol =>
    for_lt ur (fun irow =>
      sphereIdx_push_back (to_unsigned (wrap_int (wrap_int (icol * ur) + irow))) ;;
      sphereIdx_push_back
        (to_unsigned (wrap_int (wrap_int (wrap_int (icol + 1) * ur) + irow))))).

(** The vertex array those loops build. *)
Definition vertex_grid (vertex : Z -> Z -> PVector) (ur vr : Z) : list PVector :=
  flat_map (fun itheta => map (vertex itheta) (counter_values 0 (Z.to_nat ur)))
           (counter_values 0 (Z.to_nat vr)).

(** The state of a program that started with a white fill and a black
    stroke and has called [sphereDetail (30, 1)] on such a platform:
    [ures] = 30, [vres] = 1, one ring of 30 vertices (theta is 2*pi/0 * 0,
    not a number, and so are the x and z of every vertex: the coordinates
    written here only stand for them, [sphere] reads none), and no index,
    since there are vres - 1 = 0 bands. *)
Definition after_sphereDetail_30_1 : state :=
  Globals.mkState 3 [] 30 1 (repeat (mkPVector 0 0 0) 30) [] white black [].
(** * Properties *)

(** ** Stepping through the monad *)

Lemma run_bind {A B : Type} (m : M A) (k : A -> M B) (s : state) :
  run (bind m k) s =
  match run m s with
  | inl e => inl e
  | inr (a, s') => run (k a) s'
  end.
Proof.
  unfold run; simpl. destruct (runStateT m s) as [e | [a s']]; reflexivity.
Qed.

Lemma run_ret {A : Type} (a : A) (s : state) : run (ret a) s = inr (a, s).
Proof. reflexivity. Qed.

Lemma run_gets {A : Type} (f : state -> A) (s : state) :
  run (gets f) s = inr (f s, s).
Proof. reflexivity. Qed.

Lemma run_modify (f : state -> state) (s : state) :
  run (modify f) s = inr (s, f s).
Proof. reflexivity. Qed.

Lemma run_emit (c : glcall) (s : state) :
  run (emit c) s = inr (tt, issued [c] s).
Proof. reflexivity. Qed.

Lemma issued_issued (l1 l2 : list glcall) (s : state) :
  issued l2 (issued l1 s) = issued (l1 ++ l2) s.
Proof. unfold issued; cbn. rewrite app_assoc. reflexivity. Qed.

Lemma issued_nil (s : state) : issued [] s = s.
Proof. unfold issued. rewrite app_nil_r. destruct s; reflexivity. Qed.

Lemma run_when (c : bool) (body : M unit) (s : state) :
  run (when c body) s = if c then run body s else inr (tt, s).
Proof. destruct c; reflexivity. Qed.

Lemma run_element {A : Type} (v : list A) (addr : nat -> pointer) (s : state) :
  run (element v 0 addr) s =
  match v with
  | [] => inl OutOfRange
  | _ :: _ => inr (addr 0%nat, s)
  end.
Proof. destruct v; reflexivity. Qed.

Lemma run_fdiv (a : R) (d : Z) (s : state) :
  run (fdiv a d) s =
  if d =? 0 then inl DivisionByZero else inr ((a / IZR d)%R, s).
Proof. unfold fdiv. destruct (d =? 0); reflexivity. Qed.

(** ** Counted loops *)

Lemma counter_values_length (i : Z) (k : nat) : length (counter_values i k) = k.
Proof. revert i; induction k as [| k IH]; intros i; simpl; [| rewrite IH]; reflexivity. Qed.

Lemma counter_values_In (i : Z) (k : nat) (j : Z) :
  In j (counter_values i k) <-> i <= j < i + Z.of_nat k.
Proof.
  revert i; induction k as [| k IH]; intros i; simpl.
  - lia.
  - rewrite IH. lia.
Qed.

Lemma counter_values_nth (i : Z) (k j : nat) :
  (j < k)%nat -> nth_error (counter_values i k) j = Some (i + Z.of_nat j).
Proof.
  revert i j; induction k as [| k IH]; intros i j Hj; [lia |].
  destruct j as [| j]; simpl.
  - f_equal; lia.
  - rewrite IH by lia. f_equal; lia.
Qed.

(** A loop whose body always ends normally, acting on the state as [g],
    ends normally and folds [g] over the counter values. *)
Lemma run_for_from (body : Z -> M unit) (g : Z -> state -> state) (k : nat) :
  forall (i : Z) (s : state),
    (forall j t, In j (counter_values i k) -> run (body j) t = inr (tt, g j t)) ->
    run (for_from i k body) s =
    inr (tt, fold_left (fun t j => g j t) (counter_values i k) s).
Proof.
  induction k as [| k IH]; intros i s Hbody; [reflexivity |].
  cbn [for_from counter_values fold_left].
  rewrite run_bind, Hbody by (left; reflexivity).
  apply IH. intros j t Hj. apply Hbody. right; exact Hj.
Qed.

(** A loop stops with the error of the first iteration that fails. *)
Lemma run_for_from_fails (body : Z -> M unit) (e : error) (k : nat) (i : Z) (s : state) :
  run (body i) s = inl e ->
  run (for_from i (S k) body) s = inl e.
Proof. intros H. cbn [for_from]. rewrite run_bind, H. reflexivity. Qed.

Lemma fold_push_ellipseVtx (f : Z -> PVector) (l : list Z) (s : state) :
  fold_left (fun t j => Globals.set_ellipseVtx (Globals.ellipseVtx t ++ [f j]) t) l s =
  Globals.set_ellipseVtx (Globals.ellipseVtx s ++ map f l) s.
Proof.
  revert s; induction l as [| a l IH]; intros s; simpl.
  - rewrite app_nil_r. destruct s; reflexivity.
  - rewrite IH. cbn. rewrite <- app_assoc. reflexivity.
Qed.

(** ** ellipseDetail *)

Lemma run_ellipseDetail (n : Z) (s : state) :
  run (cprocessing.ellipseDetail n) s =
  inr (tt, Globals.set_ellipseVtx (ellipse_mesh n) s).
Proof.
  unfold cprocessing.ellipseDetail, for_lt.
  rewrite run_bind, run_modify.
  rewrite run_for_from with
    (g := fun j t => Globals.set_ellipseVtx (Globals.ellipseVtx t ++ [ellipse_vertex n j]) t).
  - rewrite fold_push_ellipseVtx. reflexivity.
  - intros j t Hj. apply counter_values_In in Hj.
    rewrite run_bind, run_fdiv.
    destruct (Z.eqb_spec n 0) as [-> | Hn]; [simpl in Hj; lia |].
    reflexivity.
Qed.

Lemma norm_polar (r ang : R) (v : PVector) :
  (0 <= r)%R -> at_polar r ang v -> norm v = r.
Proof.
  intros Hr (Hx & Hy & Hz). unfold norm. rewrite Hx, Hy, Hz.
  replace (r * cos ang * (r * cos ang) + r * sin ang * (r * sin ang) + 0 * 0)%R
    with ((r * r) * ((sin ang)² + (cos ang)²))%R by (unfold Rsqr; ring).
  rewrite sin2_cos2, Rmult_1_r. apply sqrt_square; exact Hr.
Qed.

Lemma ellipse_vertex_polar (n i : Z) :
  at_polar (1 / 2) (2 * PI * IZR i / IZR n) (ellipse_vertex n i).
Proof.
  unfold at_polar, ellipse_vertex; simpl.
  replace (PI * 2 * IZR i / IZR n)%R with (2 * PI * IZR i / IZR n)%R
    by (unfold Rdiv; ring).
  repeat split; unfold Rdiv; ring.
Qed.

(** C1.  For every n >= 3, [ellipseDetail n] ends normally and leaves a
    state that differs from the one it started in only by the ellipse
    mesh; the new mesh has exactly n vertices; vertex i is the point of the
    plane z = 0 at angle 2*pi*i/n and distance 1/2 from the origin; and the
    mesh is the same whatever the state the call started in (it is rebuilt
    in full from n alone). *)
Theorem ellipseDetail_mesh (n : Z) (s : state) :
  3 <= n ->
  exists s' : state,
    run (cprocessing.ellipseDetail n) s = inr (tt, s') /\
    s' = Globals.set_ellipseVtx (Globals.ellipseVtx s') s /\
    Z.of_nat (length (Globals.ellipseVtx s')) = n /\
    (forall i : Z, 0 <= i < n ->
       exists v : PVector,
         nth_error (Globals.ellipseVtx s') (Z.to_nat i) = Some v /\
         at_polar (1 / 2) (2 * PI * IZR i / IZR n) v /\
         norm v = (1 / 2)%R /\ vz v = 0%R) /\
    (forall t : state,
       exists t' : state,
         run (cprocessing.ellipseDetail n) t = inr (tt, t') /\
         Globals.ellipseVtx t' = Globals.ellipseVtx s').
Proof.
  intros Hn. exists (Globals.set_ellipseVtx (ellipse_mesh n) s).
  split; [apply run_ellipseDetail |].
  split; [reflexivity |].
  split.
  { cbn [Globals.ellipseVtx Globals.set_ellipseVtx]. unfold ellipse_mesh.
    rewrite length_map, counter_values_length. lia. }
  split.
  - intros i Hi. exists (ellipse_vertex n i).
    cbn [Globals.ellipseVtx Globals.set_ellipseVtx]. split.
    + unfold ellipse_mesh. rewrite nth_error_map, counter_values_nth by lia.
      cbn [option_map]. do 2 f_equal. lia.
    + pose proof (ellipse_vertex_polar n i) as Hp. split; [exact Hp |].
      split; [| reflexivity].
      apply norm_polar with (ang := (2 * PI * IZR i / IZR n)%R); [lra | exact Hp].
  - intros t. exists (Globals.set_ellipseVtx (ellipse_mesh n) t).
    split; [apply run_ellipseDetail | reflexivity].
Qed.

(** Straight-line code: push the run through binds and backend calls, and
    read the globals through the calls already issued. *)
Ltac step :=
  repeat (rewrite ?run_bind, ?run_emit, ?run_gets, ?run_ret, ?run_modify,
            ?run_when, ?issued_issued;
          cbn [issued app Globals.set_gl Globals.gl Globals.ellipseMode Globals.ellipseVtx
               Globals.ures Globals.vres Globals.sphereVtx Globals.sphereIdx
               Globals.fillColor Globals.strokeColor]).

(** ** quad *)

Lemma run_quad (x0 y0 x1 y1 x2 y2 x3 y3 : R) (s : state) :
  run (cprocessing.quad x0 y0 x1 y1 x2 y2 x3 y3) s =
  inr (tt, issued
    ([glEnableClientState GL_VERTEX_ARRAY;
      glVertexPointer 2 GL_DOUBLE 0 (addr_local [x0; y0; x1; y1; x2; y2; x3; y3])]
     ++ (if rgba3 (Globals.fillColor s) >? 0
         then [glColor4ubv (Globals.fillColor s);
               glPolygonMode GL_FRONT_AND_BACK GL_FILL;
               glDrawArrays GL_QUADS 0 4]
         else [])
     ++ (if rgba3 (Globals.strokeColor s) >? 0
         then [glColor4ubv (Globals.strokeColor s);
               glPolygonMode GL_FRONT_AND_BACK GL_LINE;
               glDrawArrays GL_QUADS 0 4]
         else [])
     ++ [glDisableClientState GL_VERTEX_ARRAY]) s).
Proof.
  unfold cprocessing.quad.
  destruct (rgba3 (Globals.fillColor s) >? 0) eqn:Hf;
    destruct (rgba3 (Globals.strokeColor s) >? 0) eqn:Hs;
    step; rewrite ?Hf, ?Hs; step; rewrite ?Hs; step; reflexivity.
Qed.

(** ** line, point, triangle *)

Lemma run_line (x0 y0 z0 x1 y1 z1 : R) (s : state) :
  run (cprocessing.line x0 y0 z0 x1 y1 z1) s =
  inr (tt, issued
    (if rgba3 (Globals.strokeColor s) >? 0
     then [glColor4ubv (Globals.strokeColor s); glBegin GL_LINES;
           glVertex3d x0 y0 z0; glVertex3d x1 y1 z1; glEnd]
     else []) s).
Proof.
  unfold cprocessing.line.
  destruct (rgba3 (Globals.strokeColor s) >? 0) eqn:Hs;
    step; rewrite ?Hs; step; rewrite ?issued_nil; reflexivity.
Qed.

Lemma run_point (x y z : R) (s : state) :
  run (cprocessing.point x y z) s =
  inr (tt, issued
    (if rgba3 (Globals.strokeColor s) >? 0
     then [glColor4ubv (Globals.strokeColor s); glBegin GL_POINTS;
           glVertex3d x y z; glEnd]
     else []) s).
Proof.
  unfold cprocessing.point.
  destruct (rgba3 (Globals.strokeColor s) >? 0) eqn:Hs;
    step; rewrite ?Hs; step; rewrite ?issued_nil; reflexivity.
Qed.

Lemma run_triangle (x0 y0 z0 x1 y1 z1 x2 y2 z2 : R) (s : state) :
  run (cprocessing.triangle x0 y0 z0 x1 y1 z1 x2 y2 z2) s =
  inr (tt, issued
    ([glEnableClientState GL_VERTEX_ARRAY;
      glVertexPointer 3 GL_DOUBLE 0
        (addr_local [x0; y0; z0; x1; y1; z1; x2; y2; z2])]
     ++ (if rgba3 (Globals.fillColor s) >? 0
         then [glColor4ubv (Globals.fillColor s);
               glPolygonMode GL_FRONT_AND_BACK GL_FILL;
               glDrawArrays GL_TRIANGLES 0 3]
         else [])
     ++ (if rgba3 (Globals.strokeColor s) >? 0
         then [glColor4ubv (Globals.strokeColor s);
               glPolygonMode GL_FRONT_AND_BACK GL_LINE;
               glDrawArrays GL_TRIANGLES 0 3]
         else [])
     ++ [glDisableClientState GL_VERTEX_ARRAY]) s).
Proof.
  unfold cprocessing.triangle.
  destruct (rgba3 (Globals.fillColor s) >? 0) eqn:Hf;
    destruct (rgba3 (Globals.strokeColor s) >? 0) eqn:Hs;
    step; rewrite ?Hf, ?Hs; step; rewrite ?Hs; step; reflexivity.
Qed.

(** ** ellipse and sphere: what they do as a function of the state *)

Section Draws.

Variables CENTER RADIUS CORNER CORNERS : Z.

Lemma run_ellipse (x y width height : R) (s : state) :
  run (cprocessing.ellipse CENTER RADIUS CORNERS x y width height) s =
  match Globals.ellipseVtx s with
  | [] => inl OutOfRange
  | _ :: _ =>
    inr (tt, issued
      (ellipse_calls (Globals.fillColor s) (Globals.strokeColor s)
         (length (Globals.ellipseVtx s))
         (cprocessing.ellipse_switch CENTER RADIUS CORNERS
            (Globals.ellipseMode s) x y width height)) s)
  end.
Proof.
  unfold cprocessing.ellipse, ellipse_calls.
  rewrite run_bind, run_gets.
  destruct (cprocessing.ellipse_switch CENTER RADIUS CORNERS
              (Globals.ellipseMode s) x y width height) as [[[x' y'] w'] h'].
  step. rewrite run_element.
  destruct (Globals.ellipseVtx s) as [| v0 vs] eqn:Hv; [reflexivity |].
  destruct (rgba3 (Globals.fillColor s) >? 0) eqn:Hf;
    destruct (rgba3 (Globals.strokeColor s) >? 0) eqn:Hs;
    step; rewrite ?Hf, ?Hs; step; rewrite ?Hs; step; reflexivity.
Qed.

Lemma run_ellipse_returns (x y width height : R) (s : state) :
  Globals.ellipseVtx s <> [] ->
  run (cprocessing.ellipse CENTER RADIUS CORNERS x y width height) s =
  inr (tt, issued
    (ellipse_calls (Globals.fillColor s) (Globals.strokeColor s)
       (length (Globals.ellipseVtx s))
       (cprocessing.ellipse_switch CENTER RADIUS CORNERS
          (Globals.ellipseMode s) x y width height)) s).
Proof.
  intros Hv. rewrite run_ellipse.
  destruct (Globals.ellipseVtx s); [contradiction | reflexivity].
Qed.

Lemma run_sphere_cases (radius : R) (s : state) :
  run (cprocessing.sphere radius) s =
  match Globals.sphereVtx s, Globals.sphereIdx s with
  | [], _ => inl OutOfRange
  | _ :: _, [] =>
    if (rgba3 (Globals.fillColor s) >? 0) || (rgba3 (Globals.strokeColor s) >? 0)
    then inl OutOfRange
    else inr (tt, issued
           (sphere_calls (Globals.fillColor s) (Globals.strokeColor s)
              (Globals.ures s) (Globals.vres s) radius) s)
  | _ :: _, _ :: _ =>
    inr (tt, issued
      (sphere_calls (Globals.fillColor s) (Globals.strokeColor s)
         (Globals.ures s) (Globals.vres s) radius) s)
  end.
Proof.
  unfold cprocessing.sphere, sphere_calls.
  step. rewrite run_element.
  destruct (Globals.sphereVtx s) as [| v0 vs] eqn:Ev; [reflexivity |].
  step. rewrite run_element. step.
  destruct (Globals.sphereIdx s) as [| i0 rest] eqn:Ei;
    destruct (rgba3 (Globals.fillColor s) >? 0) eqn:Hf;
    destruct (rgba3 (Globals.strokeColor s) >? 0) eqn:Hs;
    step; rewrite ?Hf, ?Hs, ?Ei, ?run_element; step;
    rewrite ?Hs, ?Ei, ?run_element; step; rewrite ?Ei, ?run_element; step;
    reflexivity.
Qed.

Lemma run_sphere (radius : R) (s : state) :
  Globals.sphereVtx s <> [] -> Globals.sphereIdx s <> [] ->
  run (cprocessing.sphere radius) s =
  inr (tt, issued
    (sphere_calls (Globals.fillColor s) (Globals.strokeColor s)
       (Globals.ures s) (Globals.vres s) radius) s).
Proof.
  intros Hv Hi. rewrite run_sphere_cases.
  destruct (Globals.sphereVtx s); [contradiction |].
  destruct (Globals.sphereIdx s); [contradiction | reflexivity].
Qed.

(** Whenever [sphere] returns, it has sent [sphere_calls]. *)
Lemma sphere_returns (radius : R) (s s' : state) :
  run (cprocessing.sphere radius) s = inr (tt, s') ->
  s' = issued (sphere_calls (Globals.fillColor s) (Globals.strokeColor s)
                 (Globals.ures s) (Globals.vres s) radius) s.
Proof.
  rewrite run_sphere_cases.
  destruct (Globals.sphereVtx s); [discriminate |].
  destruct (Globals.sphereIdx s);
    [destruct (_ || _); [discriminate |] |]; intros [= <-]; reflexivity.
Qed.

End Draws.

(** ** Fill and outline passes *)

(** C7.  [quad] always returns, and of the calls it sends to the backend:
    with stroke alpha 0 and fill alpha 255 exactly one is a fill pass and
    none is an outline pass; in general a fill alpha of 0 leaves no fill
    pass and a stroke alpha of 0 leaves no outline pass, while a positive
    alpha gives exactly one pass of its kind.  This holds whatever the
    polygon mode of the backend is when [quad] is called. *)
Theorem quad_passes (x0 y0 x1 y1 x2 y2 x3 y3 : R) (s : state) (polygon_mode : GLenum) :
  exists l : list glcall,
    run (cprocessing.quad x0 y0 x1 y1 x2 y2 x3 y3) s = inr (tt, issued l s) /\
    (rgba3 (Globals.strokeColor s) = 0 -> rgba3 (Globals.fillColor s) = 255 ->
     fill_passes polygon_mode l = 1%nat /\ outline_passes polygon_mode l = 0%nat) /\
    (rgba3 (Globals.fillColor s) = 0 -> fill_passes polygon_mode l = 0%nat) /\
    (rgba3 (Globals.strokeColor s) = 0 -> outline_passes polygon_mode l = 0%nat) /\
    (0 < rgba3 (Globals.fillColor s) -> fill_passes polygon_mode l = 1%nat) /\
    (0 < rgba3 (Globals.strokeColor s) -> outline_passes polygon_mode l = 1%nat).
Proof.
  eexists. split; [apply run_quad |].
  unfold fill_passes, outline_passes.
  destruct (Z.gtb_spec (rgba3 (Globals.fillColor s)) 0) as [Hf | Hf];
    destruct (Z.gtb_spec (rgba3 (Globals.strokeColor s)) 0) as [Hs | Hs];
    cbn; repeat split; intros; (reflexivity || lia).
Qed.

(** The first clause of C7 on a concrete call. *)
Lemma quad_passes_witness :
  exists l : list glcall,
    run (cprocessing.quad 0 0 1 0 1 1 0 1)
        (cprocessing.initial 3 (mkColor 255 0 0 255) (mkColor 0 0 0 0)) =
      inr (tt, issued l (cprocessing.initial 3 (mkColor 255 0 0 255) (mkColor 0 0 0 0))) /\
    fill_passes GL_LINE l = 1%nat /\ outline_passes GL_LINE l = 0%nat.
Proof.
  destruct (quad_passes 0 0 1 0 1 1 0 1
              (cprocessing.initial 3 (mkColor 255 0 0 255) (mkColor 0 0 0 0)) GL_LINE)
    as (l & Hrun & H & _).
  exists l. split; [exact Hrun |]. apply H; reflexivity.
Defined.

(** The same gating in the other five draws: whenever one of them returns,
    a fill alpha of 0 has produced no fill pass and a stroke alpha of 0 no
    outline pass. *)
Lemma alpha_zero_suppresses_pass (CENTER RADIUS CORNER CORNERS : Z)
      (c : api) (s s' : state) (polygon_mode : GLenum) :
  run (call CENTER RADIUS CORNER CORNERS c) s = inr (tt, s') ->
  match c with
  | EllipseDetail _ | EllipseMode _ | SphereDetail _ _ => True
  | _ =>
    exists l : list glcall,
      s' = issued l s /\
      (rgba3 (Globals.fillColor s) = 0 -> fill_passes polygon_mode l = 0%nat) /\
      (rgba3 (Globals.strokeColor s) = 0 -> outline_passes polygon_mode l = 0%nat)
  end.
Proof.
  destruct c; cbn [call]; try (intros _; exact I).
  - rewrite run_line. intros [= <-]. eexists; split; [reflexivity |].
    unfold fill_passes, outline_passes.
    destruct (Z.gtb_spec (rgba3 (Globals.strokeColor s)) 0); cbn; split; intros; (reflexivity || lia).
  - rewrite run_triangle. intros [= <-]. eexists; split; [reflexivity |].
    unfold fill_passes, outline_passes.
    destruct (Z.gtb_spec (rgba3 (Globals.fillColor s)) 0);
      destruct (Z.gtb_spec (rgba3 (Globals.strokeColor s)) 0);
      cbn; split; intros; (reflexivity || lia).
  - rewrite run_quad. intros [= <-]. eexists; split; [reflexivity |].
    unfold fill_passes, outline_passes.
    destruct (Z.gtb_spec (rgba3 (Globals.fillColor s)) 0);
      destruct (Z.gtb_spec (rgba3 (Globals.strokeColor s)) 0);
      cbn; split; intros; (reflexivity || lia).
  - rewrite run_point. intros [= <-]. eexists; split; [reflexivity |].
    unfold fill_passes, outline_passes.
    destruct (Z.gtb_spec (rgba3 (Globals.strokeColor s)) 0); cbn; split; intros; (reflexivity || lia).
  - rewrite run_ellipse. destruct (Globals.ellipseVtx s) as [| v0 vs]; [discriminate |].
    intros [= <-]. eexists; split; [reflexivity |].
    unfold fill_passes, outline_passes, ellipse_calls.
    destruct (cprocessing.ellipse_switch _ _ _ _ _ _ _ _) as [[[x' y'] w'] h'].
    destruct (Z.gtb_spec (rgba3 (Globals.fillColor s)) 0);
      destruct (Z.gtb_spec (rgba3 (Globals.strokeColor s)) 0);
      cbn; split; intros; (reflexivity || lia).
  - intros Hrun. apply sphere_returns in Hrun. eexists; split; [exact Hrun |].
    unfold fill_passes, outline_passes, sphere_calls.
    destruct (Z.gtb_spec (rgba3 (Globals.fillColor s)) 0);
      destruct (Z.gtb_spec (rgba3 (Globals.strokeColor s)) 0);
      cbn; split; intros; (reflexivity || lia).
Qed.

(** ** Where ellipse puts the mesh *)

Lemma PVector_eq (a b c a' b' c' : R) :
  a = a' -> b = b' -> c = c' -> mkPVector a b c = mkPVector a' b' c'.
Proof. intros -> -> ->; reflexivity. Qed.

Lemma places_boxed (T : transform) (cx cy w h : R) :
  places T cx cy w h ->
  boxed T (cx - w / 2) (cy - h / 2) (cx + w / 2) (cy + h / 2).
Proof.
  intros HT. unfold boxed, low_corner, high_corner. rewrite !HT. cbn.
  split; apply PVector_eq; lra.
Qed.

(** The transform [ellipse] sets up from the arguments its [switch] leaves:
    translate (x, y), scale (w, h), translate (1/2, 1/2). *)
Lemma draws_ellipse_calls (fill stroke : color) (size : nat) (x y w h : R) :
  Forall (fun d => places (snd d) (x + w / 2) (y + h / 2) w h)
         (draws (ellipse_calls fill stroke size (x, y, w, h))) /\
  length (draws (ellipse_calls fill stroke size (x, y, w, h))) =
    ((if rgba3 fill >? 0 then 1 else 0) + (if rgba3 stroke >? 0 then 1 else 0))%nat /\
  matrix_changes (ellipse_calls fill stroke size (x, y, w, h)) =
    [glTranslatef x y 0; glScalef w h 1; glTranslatef (1 / 2) (1 / 2) 0].
Proof.
  assert (HT : places (fun p => translation x y 0 (scaling w h 1 (translation (1 / 2) (1 / 2) 0 p)))
                      (x + w / 2) (y + h / 2) w h).
  { intros p. unfold translation, scaling; cbn. apply PVector_eq; lra. }
  unfold draws, ellipse_calls, matrix_changes.
  destruct (rgba3 fill >? 0); destruct (rgba3 stroke >? 0); cbn;
    (split; [repeat constructor; exact HT | split; reflexivity]).
Qed.

(** The mesh [ellipseDetail] builds lies inside the box [-1/2, 1/2]^2 of
    the circle of diameter 1, and a placing transform of non-negative width
    and height keeps the vertices inside the image of that box. *)
Lemma ellipse_mesh_in_box (n : Z) (v : PVector) :
  In v (ellipse_mesh n) ->
  (- (1 / 2) <= vx v <= 1 / 2)%R /\ (- (1 / 2) <= vy v <= 1 / 2)%R /\ vz v = 0%R.
Proof.
  unfold ellipse_mesh. rewrite in_map_iff. intros (i & <- & _).
  unfold ellipse_vertex; cbn [vx vy vz].
  pose proof (COS_bound (PI * 2 * IZR i / IZR n)).
  pose proof (SIN_bound (PI * 2 * IZR i / IZR n)).
  repeat split; lra.
Qed.

Lemma places_in_box (T : transform) (cx cy w h : R) (p : PVector) :
  places T cx cy w h -> (0 <= w)%R -> (0 <= h)%R ->
  (- (1 / 2) <= vx p <= 1 / 2)%R -> (- (1 / 2) <= vy p <= 1 / 2)%R ->
  (cx - w / 2 <= vx (T p) <= cx + w / 2)%R /\
  (cy - h / 2 <= vy (T p) <= cy + h / 2)%R.
Proof.
  intros HT Hw Hh Hx Hy. rewrite HT; cbn [vx vy]. split; nra.
Qed.

Section Ellipse.

Variables CENTER RADIUS CORNER CORNERS : Z.
Hypothesis modes : distinct_modes CENTER RADIUS CORNER CORNERS.

Lemma switch_CENTER (x y w h : R) :
  cprocessing.ellipse_switch CENTER RADIUS CORNERS CENTER x y w h =
  ((x - w / 2)%R, (y - h / 2)%R, w, h).
Proof. unfold cprocessing.ellipse_switch. rewrite Z.eqb_refl. reflexivity. Qed.

Lemma switch_RADIUS (x y w h : R) :
  cprocessing.ellipse_switch CENTER RADIUS CORNERS RADIUS x y w h =
  ((x - w)%R, (y - h)%R, (w * 2)%R, (h * 2)%R).
Proof.
  unfold cprocessing.ellipse_switch. unfold distinct_modes in modes.
  destruct (Z.eqb_spec RADIUS CENTER); [lia |]. rewrite Z.eqb_refl. reflexivity.
Qed.

Lemma switch_CORNERS (x y w h : R) :
  cprocessing.ellipse_switch CENTER RADIUS CORNERS CORNERS x y w h =
  (x, y, (w - x)%R, (h - y)%R).
Proof.
  unfold cprocessing.ellipse_switch. unfold distinct_modes in modes.
  destruct (Z.eqb_spec CORNERS CENTER); [lia |].
  destruct (Z.eqb_spec CORNERS RADIUS); [lia |].
  rewrite Z.eqb_refl. reflexivity.
Qed.

Lemma switch_CORNER (x y w h : R) :
  cprocessing.ellipse_switch CENTER RADIUS CORNERS CORNER x y w h = (x, y, w, h).
Proof.
  unfold cprocessing.ellipse_switch. unfold distinct_modes in modes.
  destruct (Z.eqb_spec CORNER CENTER); [lia |].
  destruct (Z.eqb_spec CORNER RADIUS); [lia |].
  destruct (Z.eqb_spec CORNER CORNERS); [lia |].
  reflexivity.
Qed.

Lemma boxed_ext (T : transform) (a b c d a' b' c' d' : R) :
  a = a' -> b = b' -> c = c' -> d = d' ->
  boxed T a b c d -> boxed T a' b' c' d'.
Proof. intros -> -> -> ->; trivial. Qed.

Lemma places_ext (T : transform) (cx cy w h cx' cy' w' h' : R) :
  cx = cx' -> cy = cy' -> w = w' -> h = h' ->
  places T cx cy w h -> places T cx' cy' w' h'.
Proof. intros -> -> -> ->; trivial. Qed.

(** C3.  With a non-empty ellipse mesh, [ellipse x y width height] returns,
    issues one draw per colour of positive alpha, and every draw is issued
    under a transform that carries the unit mesh to:
    - mode CENTER: centre (x, y), width [width], height [height], that is
      the bounding box from (x - width/2, y - height/2) to
      (x + width/2, y + height/2);
    - mode RADIUS: centre (x, y), axes 2*width and 2*height;
    - mode CORNERS: the bounding box with opposite corners (x, y) and
      (width, height). *)
Theorem ellipse_placement (x y width height : R) (s : state) :
  Globals.ellipseVtx s <> [] ->
  exists l : list glcall,
    run (cprocessing.ellipse CENTER RADIUS CORNERS x y width height) s =
      inr (tt, issued l s) /\
    length (draws l) =
      ((if rgba3 (Globals.fillColor s) >? 0 then 1 else 0) +
       (if rgba3 (Globals.strokeColor s) >? 0 then 1 else 0))%nat /\
    (Globals.ellipseMode s = CENTER ->
     Forall (fun d => places (snd d) x y width height /\
                      boxed (snd d) (x - width / 2) (y - height / 2)
                                    (x + width / 2) (y + height / 2))
            (draws l)) /\
    (Globals.ellipseMode s = RADIUS ->
     Forall (fun d => places (snd d) x y (2 * width) (2 * height) /\
                      boxed (snd d) (x - width) (y - height) (x + width) (y + height))
            (draws l)) /\
    (Globals.ellipseMode s = CORNERS ->
     Forall (fun d => places (snd d) ((x + width) / 2) ((y + height) / 2)
                             (width - x) (height - y) /\
                      boxed (snd d) x y width height)
            (draws l)).
Proof.
  intros Hmesh. eexists. split; [apply run_ellipse_returns; exact Hmesh |].
  destruct (cprocessing.ellipse_switch CENTER RADIUS CORNERS (Globals.ellipseMode s)
              x y width height) as [[[x' y'] w'] h'] eqn:Hsw.
  destruct (draws_ellipse_calls (Globals.fillColor s) (Globals.strokeColor s)
              (length (Globals.ellipseVtx s)) x' y' w' h') as (Hplaces & Hlen & _).
  split; [exact Hlen |].
  repeat split; intros Hmode; rewrite Hmode in Hsw;
    [rewrite switch_CENTER in Hsw | rewrite switch_RADIUS in Hsw
     | rewrite switch_CORNERS in Hsw];
    injection Hsw as <- <- <- <-;
    (eapply Forall_impl; [| exact Hplaces]); intros d Hd; cbv beta in Hd.
  - assert (H : places (snd d) x y width height)
      by (revert Hd; apply places_ext; lra).
    split; [exact H | apply places_boxed in H; exact H].
  - assert (H : places (snd d) x y (2 * width) (2 * height))
      by (revert Hd; apply places_ext; lra).
    split; [exact H |]. apply places_boxed in H.
    revert H; apply boxed_ext; lra.
  - assert (H : places (snd d) ((x + width) / 2) ((y + height) / 2)
                       (width - x) (height - y))
      by (revert Hd; apply places_ext; lra).
    split; [exact H |]. apply places_boxed in H.
    revert H; apply boxed_ext; lra.
Qed.

(** C4.  In mode CORNER, with a non-empty mesh, the [switch] of [ellipse]
    leaves the four arguments as they are; the matrix changes issued are
    translate (x, y), scale (width, height), translate (1/2, 1/2), in this
    order; and every draw is issued under a transform that carries the
    bounding box of the unit mesh to the box with corner (x, y), width
    [width] and height [height]. *)
Theorem ellipse_CORNER (x y width height : R) (s : state) :
  Globals.ellipseMode s = CORNER ->
  Globals.ellipseVtx s <> [] ->
  cprocessing.ellipse_switch CENTER RADIUS CORNERS (Globals.ellipseMode s) x y width height =
    (x, y, width, height) /\
  exists l : list glcall,
    run (cprocessing.ellipse CENTER RADIUS CORNERS x y width height) s =
      inr (tt, issued l s) /\
    matrix_changes l =
      [glTranslatef x y 0; glScalef width height 1; glTranslatef (1 / 2) (1 / 2) 0] /\
    length (draws l) =
      ((if rgba3 (Globals.fillColor s) >? 0 then 1 else 0) +
       (if rgba3 (Globals.strokeColor s) >? 0 then 1 else 0))%nat /\
    Forall (fun d =>
              (forall p, snd d p =
                 translation x y 0 (scaling width height 1 (translation (1 / 2) (1 / 2) 0 p))) /\
              places (snd d) (x + width / 2) (y + height / 2) width height /\
              boxed (snd d) x y (x + width) (y + height))
           (draws l).
Proof.
  intros Hmode Hmesh. rewrite Hmode, switch_CORNER. split; [reflexivity |].
  eexists. split; [apply run_ellipse_returns; exact Hmesh |].
  rewrite Hmode, switch_CORNER.
  destruct (draws_ellipse_calls (Globals.fillColor s) (Globals.strokeColor s)
              (length (Globals.ellipseVtx s)) x y width height) as (Hplaces & Hlen & Hmat).
  split; [exact Hmat |]. split; [exact Hlen |].
  eapply Forall_impl; [| exact Hplaces]. intros d Hd; cbv beta in Hd.
  split.
  - intros p. rewrite Hd. unfold translation, scaling; cbn. apply PVector_eq; lra.
  - split; [exact Hd |]. apply places_boxed in Hd.
    revert Hd; apply boxed_ext; lra.
Qed.

End Ellipse.

(** ** Machine arithmetic *)

Lemma wrap_int_id (z : Z) : is_int z -> wrap_int z = z.
Proof.
  unfold is_int, INT_MIN, INT_MAX, wrap_int. intros H.
  rewrite Z.mod_small by lia. lia.
Qed.

Lemma wrap_int_range (z : Z) : is_int (wrap_int z).
Proof.
  unfold is_int, INT_MIN, INT_MAX, wrap_int.
  pose proof (Z.mod_pos_bound (z + 2147483648) 4294967296 ltac:(lia)). lia.
Qed.

Lemma to_unsigned_wrap_int (z : Z) : to_unsigned (wrap_int z) = to_unsigned z.
Proof.
  unfold to_unsigned, wrap_int.
  rewrite Zminus_mod_idemp_l. f_equal. lia.
Qed.

Lemma to_unsigned_wrap_add (a b : Z) :
  to_unsigned (wrap_int (wrap_int a + b)) = to_unsigned (a + b).
Proof.
  rewrite to_unsigned_wrap_int. unfold to_unsigned.
  rewrite Zplus_mod, <- (Z.mod_mod (wrap_int a)) by lia.
  fold (to_unsigned (wrap_int a)). rewrite to_unsigned_wrap_int. unfold to_unsigned.
  rewrite Z.mod_mod by lia. rewrite <- Zplus_mod. reflexivity.
Qed.

Lemma to_unsigned_bounds (z bound : Z) :
  0 <= z < bound -> 0 <= to_unsigned z < bound.
Proof.
  intros H. unfold to_unsigned.
  pose proof (Z.mod_pos_bound z 4294967296 ltac:(lia)).
  pose proof (Z.mod_le z 4294967296 ltac:(lia) ltac:(lia)). lia.
Qed.

(** ** Lists built row by row *)

Lemma flat_map_singleton {A B : Type} (f : A -> B) (l : list A) :
  flat_map (fun a => [f a]) l = map f l.
Proof. induction l as [| a l IH]; simpl; [| rewrite IH]; reflexivity. Qed.

Lemma flat_map_empty_rows {A B : Type} (f : A -> list B) (l : list A) :
  (forall a, f a = []) -> flat_map f l = [].
Proof.
  intros H. induction l as [| a l IH]; simpl; [| rewrite H, IH]; reflexivity.
Qed.

Lemma length_flat_map_rows {A B : Type} (f : A -> list B) (m : nat) (l : list A) :
  (forall a, In a l -> length (f a) = m) ->
  length (flat_map f l) = (length l * m)%nat.
Proof.
  induction l as [| a l IH]; intros H; simpl; [reflexivity |].
  rewrite length_app, H, IH; [reflexivity | | left; reflexivity].
  intros b Hb. apply H. right; exact Hb.
Qed.

Lemma nth_error_flat_map_rows {A B : Type} (f : A -> list B) (m : nat) (l : list A)
      (i j : nat) (a : A) :
  (forall a, In a l -> length (f a) = m) ->
  nth_error l i = Some a -> (j < m)%nat ->
  nth_error (flat_map f l) (i * m + j) = nth_error (f a) j.
Proof.
  revert i; induction l as [| b l IH]; intros i Hrows Hi Hj.
  - destruct i; discriminate.
  - destruct i as [| i]; simpl in Hi |- *.
    + injection Hi as ->. rewrite nth_error_app1; [reflexivity |].
      rewrite Hrows by (left; reflexivity). exact Hj.
    + rewrite nth_error_app2; rewrite (Hrows b) by (left; reflexivity); [| lia].
      replace (m + i * m + j - m)%nat with (i * m + j)%nat by lia.
      apply IH; [| exact Hi | exact Hj].
      intros c Hc. apply Hrows. right; exact Hc.
Qed.

Lemma fold_rows_sphereVtx (f : Z -> list PVector) (l : list Z) (s : state) :
  fold_left (fun t j => Globals.set_sphereVtx (Globals.sphereVtx t ++ f j) t) l s =
  Globals.set_sphereVtx (Globals.sphereVtx s ++ flat_map f l) s.
Proof.
  revert s; induction l as [| a l IH]; intros s; simpl.
  - rewrite app_nil_r. destruct s; reflexivity.
  - rewrite IH. cbn. rewrite <- app_assoc. reflexivity.
Qed.

Lemma fold_rows_sphereIdx (f : Z -> list Z) (l : list Z) (s : state) :
  fold_left (fun t j => Globals.set_sphereIdx (Globals.sphereIdx t ++ f j) t) l s =
  Globals.set_sphereIdx (Globals.sphereIdx s ++ flat_map f l) s.
Proof.
  revert s; induction l as [| a l IH]; intros s; simpl.
  - rewrite app_nil_r. destruct s; reflexivity.
  - rewrite IH. cbn. rewrite <- app_assoc. reflexivity.
Qed.

(** ** sphereDetail *)

(** The inner loop of the vertex pass appends one row. *)
Lemma run_vertex_row (ur vr itheta : Z) (s : state) :
  (0 < ur -> wrap_int (ur - 1) <> 0) ->
  run (for_lt ur (fun iphi =>
         q <- fdiv PI (wrap_int (ur - 1)) ;;
         let phi := (q * IZR iphi)%R in
         let sinphi := sin phi in
         let cosphi := cos phi in
         let y := cosphi in
         let x := (sinphi * cos (TWO_PI / IZR (wrap_int (vr - 1)) * IZR itheta))%R in
         let z := (sinphi * sin (TWO_PI / IZR (wrap_int (vr - 1)) * IZR itheta))%R in
         sphereVtx_push_back (mkPVector x y z))) s =
  inr (tt, Globals.set_sphereVtx
             (Globals.sphereVtx s ++
              map (sphere_vertex ur vr itheta) (counter_values 0 (Z.to_nat ur))) s).
Proof.
  intros Hur. unfold for_lt.
  rewrite run_for_from with
    (g := fun j t => Globals.set_sphereVtx
                       (Globals.sphereVtx t ++ [sphere_vertex ur vr itheta j]) t).
  - rewrite fold_rows_sphereVtx, flat_map_singleton. reflexivity.
  - intros j t Hj. apply counter_values_In in Hj.
    rewrite run_bind, run_fdiv.
    destruct (Z.eqb_spec (wrap_int (ur - 1)) 0) as [E | _]; [exfalso; apply Hur; [lia | exact E] |].
    reflexivity.
Qed.

(** The inner loop of the index pass appends the index pairs of one band. *)
Lemma run_index_band (ur icol : Z) (s : state) :
  run (for_lt ur (fun irow =>
         sphereIdx_push_back (to_unsigned (wrap_int (wrap_int (icol * ur) + irow))) ;;
         sphereIdx_push_back
           (to_unsigned (wrap_int (wrap_int (wrap_int (icol + 1) * ur) + irow))))) s =
  inr (tt, Globals.set_sphereIdx
             (Globals.sphereIdx s ++
              flat_map (sphere_index_pair ur icol) (counter_values 0 (Z.to_nat ur))) s).
Proof.
  unfold for_lt.
  rewrite run_for_from with
    (g := fun j t => Globals.set_sphereIdx
                       (Globals.sphereIdx t ++ sphere_index_pair ur icol j) t).
  - rewrite fold_rows_sphereIdx. reflexivity.
  - intros j t _. unfold sphere_index_pair.
    rewrite run_bind. cbn. rewrite <- app_assoc. reflexivity.
Qed.

Lemma run_vertex_pass (ur vr : Z) (s : state) :
  run (for_lt vr (fun itheta =>
         q <- fdiv TWO_PI (wrap_int (vr - 1)) ;;
         let theta := (q * IZR itheta)%R in
         let sintheta := sin theta in
         let costheta := cos theta in
         for_lt ur (fun iphi =>
           q <- fdiv PI (wrap_int (ur - 1)) ;;
           let phi := (q * IZR iphi)%R in
           let sinphi := sin phi in
           let cosphi := cos phi in
           let y := cosphi in
           let x := (sinphi * costheta)%R in
           let z := (sinphi * sintheta)%R in
           sphereVtx_push_back (mkPVector x y z)))) s =
  if divides_by_zero ur vr then inl DivisionByZero
  else inr (tt, Globals.set_sphereVtx (Globals.sphereVtx s ++ sphere_vertices ur vr) s).
Proof.
  unfold divides_by_zero, sphere_vertices, for_lt at 1.
  destruct (Z.ltb_spec 0 vr) as [Hvr | Hvr]; cbn [andb].
  2: { replace (Z.to_nat vr) with 0%nat by lia. cbn [for_from counter_values flat_map].
       rewrite run_ret, app_nil_r. destruct s; reflexivity. }
  destruct (Z.eqb_spec (wrap_int (vr - 1)) 0) as [Ev | Ev]; cbn [orb].
  { (* theta divides by zero in the first iteration *)
    destruct (Z.to_nat vr) as [| k] eqn:Ek; [lia |].
    apply run_for_from_fails.
    rewrite run_bind, run_fdiv, Ev. reflexivity. }
  assert (Hrow : (0 < ur -> wrap_int (ur - 1) <> 0) ->
    forall j t, run (q <- fdiv TWO_PI (wrap_int (vr - 1)) ;;
         let theta := (q * IZR j)%R in
         let sintheta := sin theta in
         let costheta := cos theta in
         for_lt ur (fun iphi =>
           q <- fdiv PI (wrap_int (ur - 1)) ;;
           let phi := (q * IZR iphi)%R in
           let sinphi := sin phi in
           let cosphi := cos phi in
           let y := cosphi in
           let x := (sinphi * costheta)%R in
           let z := (sinphi * sintheta)%R in
           sphereVtx_push_back (mkPVector x y z))) t =
       inr (tt, Globals.set_sphereVtx
                  (Globals.sphereVtx t ++
                   map (sphere_vertex ur vr j) (counter_values 0 (Z.to_nat ur))) t)).
  { intros Hur j t. rewrite run_bind, run_fdiv.
    destruct (Z.eqb_spec (wrap_int (vr - 1)) 0); [contradiction |].
    apply run_vertex_row. exact Hur. }
  destruct (Z.ltb_spec 0 ur) as [Hur | Hur]; cbn [andb].
  - destruct (Z.eqb_spec (wrap_int (ur - 1)) 0) as [Eu | Eu].
    + (* phi divides by zero in the first iteration of the first row *)
      destruct (Z.to_nat vr) as [| k] eqn:Ek; [lia |].
      apply run_for_from_fails.
      rewrite run_bind, run_fdiv.
      destruct (Z.eqb_spec (wrap_int (vr - 1)) 0); [contradiction |].
      unfold for_lt. destruct (Z.to_nat ur) as [| k'] eqn:Ek'; [lia |].
      apply run_for_from_fails.
      rewrite run_bind, run_fdiv, Eu. reflexivity.
    + rewrite run_for_from with
        (g := fun j t => Globals.set_sphereVtx
                (Globals.sphereVtx t ++
                 map (sphere_vertex ur vr j) (counter_values 0 (Z.to_nat ur))) t)
        by (intros j t _; apply Hrow; intros _; exact Eu).
      rewrite fold_rows_sphereVtx. reflexivity.
  - rewrite run_for_from with
      (g := fun j t => Globals.set_sphereVtx
              (Globals.sphereVtx t ++
               map (sphere_vertex ur vr j) (counter_values 0 (Z.to_nat ur))) t)
      by (intros j t _; apply Hrow; intros H; lia).
    rewrite fold_rows_sphereVtx. reflexivity.
Qed.

Lemma run_index_pass (ur vr : Z) (s : state) :
  run (for_lt (wrap_int (vr - 1)) (fun icol =>
         for_lt ur (fun irow =>
           sphereIdx_push_back (to_unsigned (wrap_int (wrap_int (icol * ur) + irow))) ;;
           sphereIdx_push_back
             (to_unsigned (wrap_int (wrap_int (wrap_int (icol + 1) * ur) + irow)))))) s =
  inr (tt, Globals.set_sphereIdx (Globals.sphereIdx s ++ sphere_indices ur vr) s).
Proof.
  unfold sphere_indices, for_lt at 1.
  rewrite run_for_from with
    (g := fun j t => Globals.set_sphereIdx
            (Globals.sphereIdx t ++
             flat_map (sphere_index_pair ur j) (counter_values 0 (Z.to_nat ur))) t)
    by (intros j t _; apply run_index_band).
  rewrite fold_rows_sphereIdx. reflexivity.
Qed.

Lemma run_sphereDetail (ur vr : Z) (s : state) :
  run (cprocessing.sphereDetail ur vr) s =
  if divides_by_zero ur vr then inl DivisionByZero
  else inr (tt, after_sphereDetail ur vr s).
Proof.
  unfold cprocessing.sphereDetail, after_sphereDetail.
  do 3 (rewrite run_bind, run_modify; cbv iota beta).
  rewrite run_bind, run_vertex_pass.
  destruct (divides_by_zero ur vr); [reflexivity |].
  rewrite run_bind, run_modify; cbv iota beta.
  rewrite run_index_pass. reflexivity.
Qed.

(** *** The vertex grid *)

Lemma sphere_vertices_length (ur vr : Z) :
  0 <= ur -> 0 <= vr -> Z.of_nat (length (sphere_vertices ur vr)) = ur * vr.
Proof.
  intros Hur Hvr. unfold sphere_vertices.
  rewrite length_flat_map_rows with (m := Z.to_nat ur)
    by (intros; rewrite length_map; apply counter_values_length).
  rewrite counter_values_length. lia.
Qed.

Lemma sphere_vertices_nth (ur vr itheta iphi : Z) :
  0 <= itheta < vr -> 0 <= iphi < ur ->
  nth_error (sphere_vertices ur vr) (Z.to_nat (itheta * ur + iphi)) =
  Some (sphere_vertex ur vr itheta iphi).
Proof.
  intros Ht Hp. unfold sphere_vertices.
  replace (Z.to_nat (itheta * ur + iphi))
    with (Z.to_nat itheta * Z.to_nat ur + Z.to_nat iphi)%nat by nia.
  rewrite nth_error_flat_map_rows with (m := Z.to_nat ur) (a := itheta).
  - rewrite nth_error_map, counter_values_nth by lia.
    cbn [option_map]. do 2 f_equal. lia.
  - intros; rewrite length_map; apply counter_values_length.
  - rewrite counter_values_nth by lia. f_equal. lia.
  - lia.
Qed.

Lemma sphere_vertex_spherical (ur vr itheta iphi : Z) :
  is_int ur -> is_int vr -> 2 <= ur -> 2 <= vr ->
  at_spherical (IZR iphi * (PI / IZR (ur - 1))) (IZR itheta * (2 * PI / IZR (vr - 1)))
               (sphere_vertex ur vr itheta iphi).
Proof.
  unfold is_int, INT_MIN, INT_MAX. intros Hur Hvr Hu Hv.
  unfold at_spherical, sphere_vertex, TWO_PI.
  rewrite !wrap_int_id by (unfold is_int, INT_MIN, INT_MAX; lia).
  cbn [vx vy vz].
  rewrite (Rmult_comm (PI / IZR (ur - 1))), (Rmult_comm (2 * PI / IZR (vr - 1))).
  repeat split.
Qed.

Lemma norm_spherical (phi theta : R) (v : PVector) :
  at_spherical phi theta v -> norm v = 1%R.
Proof.
  intros (Hx & Hy & Hz). unfold norm. rewrite Hx, Hy, Hz.
  replace (sin phi * cos theta * (sin phi * cos theta) + cos phi * cos phi +
           sin phi * sin theta * (sin phi * sin theta))%R
    with ((sin phi)² * ((sin theta)² + (cos theta)²) + (cos phi)²)%R
    by (unfold Rsqr; ring).
  rewrite sin2_cos2, Rmult_1_r, sin2_cos2. apply sqrt_1.
Qed.

Lemma sphere_vertices_In (ur vr : Z) (v : PVector) :
  In v (sphere_vertices ur vr) ->
  exists itheta iphi : Z,
    0 <= itheta < vr /\ 0 <= iphi < ur /\ v = sphere_vertex ur vr itheta iphi.
Proof.
  unfold sphere_vertices. rewrite in_flat_map.
  intros (itheta & Ht & Hv). apply in_map_iff in Hv. destruct Hv as (iphi & <- & Hp).
  apply counter_values_In in Ht, Hp.
  exists itheta, iphi. repeat split; lia.
Qed.

(** *** The index sequence *)

Lemma sphere_indices_length (ur vr : Z) :
  0 <= ur -> is_int vr -> 1 <= vr ->
  Z.of_nat (length (sphere_indices ur vr)) = ur * (vr - 1) * 2.
Proof.
  unfold is_int, INT_MIN, INT_MAX. intros Hur Hvr Hv. unfold sphere_indices.
  rewrite wrap_int_id by (unfold is_int, INT_MIN, INT_MAX; lia).
  rewrite length_flat_map_rows with (m := (Z.to_nat ur * 2)%nat).
  - rewrite counter_values_length, !Nat2Z.inj_mul, !Z2Nat.id by lia. ring.
  - intros icol _.
    rewrite length_flat_map_rows with (m := 2%nat) by reflexivity.
    rewrite counter_values_length. reflexivity.
Qed.

Lemma sphere_indices_In (ur vr i : Z) :
  is_int vr -> 1 <= vr ->
  In i (sphere_indices ur vr) ->
  exists icol irow : Z,
    0 <= icol < vr - 1 /\ 0 <= irow < ur /\
    (i = to_unsigned (icol * ur + irow) \/ i = to_unsigned ((icol + 1) * ur + irow)).
Proof.
  unfold is_int, INT_MIN, INT_MAX. intros Hvr Hv. unfold sphere_indices.
  rewrite wrap_int_id by (unfold is_int, INT_MIN, INT_MAX; lia).
  rewrite in_flat_map. intros (icol & Hc & Hi).
  apply in_flat_map in Hi. destruct Hi as (irow & Hr & Hi).
  apply counter_values_In in Hc, Hr.
  exists icol, irow. split; [lia |]. split; [lia |].
  unfold sphere_index_pair in Hi. cbn [In] in Hi.
  destruct Hi as [<- | [<- | []]].
  - left. apply to_unsigned_wrap_add.
  - right. rewrite to_unsigned_wrap_add.
    rewrite (wrap_int_id (icol + 1)) by (unfold is_int, INT_MIN, INT_MAX; lia).
    reflexivity.
Qed.

Lemma sphere_indices_bound (ur vr i : Z) :
  is_int vr -> 1 <= vr ->
  In i (sphere_indices ur vr) -> 0 <= i < ur * vr.
Proof.
  intros Hvr Hv Hi.
  destruct (sphere_indices_In ur vr i Hvr Hv Hi) as (icol & irow & Hc & Hr & [-> | ->]);
    apply to_unsigned_bounds; nia.
Qed.

Lemma divides_by_zero_spec (ur vr : Z) :
  is_int ur -> is_int vr ->
  divides_by_zero ur vr = true <-> vr = 1 \/ (ur = 1 /\ 1 <= vr).
Proof.
  unfold is_int, INT_MIN, INT_MAX, divides_by_zero. intros Hur Hvr.
  rewrite andb_true_iff, orb_true_iff, andb_true_iff, !Z.ltb_lt, !Z.eqb_eq.
  split.
  - intros [Hv [E | [Hu E]]].
    + rewrite wrap_int_id in E by (unfold is_int, INT_MIN, INT_MAX; lia). lia.
    + rewrite wrap_int_id in E by (unfold is_int, INT_MIN, INT_MAX; lia). lia.
  - intros [-> | [-> Hv]].
    + split; [lia | left; reflexivity].
    + split; [lia | right; split; [lia | reflexivity]].
Qed.

Lemma sphereDetail_returns (ur vr : Z) (s : state) :
  is_int ur -> is_int vr -> 2 <= ur -> 2 <= vr ->
  run (cprocessing.sphereDetail ur vr) s = inr (tt, after_sphereDetail ur vr s).
Proof.
  intros Hur Hvr Hu Hv. rewrite run_sphereDetail.
  destruct (divides_by_zero ur vr) eqn:E; [| reflexivity].
  apply divides_by_zero_spec in E; [lia | exact Hur | exact Hvr].
Qed.

(** C2.  For ures >= 2 and vres >= 2, [sphereDetail ures vres] returns and
    leaves ures*vres vertices; the vertex at row [itheta], column [iphi] is
    the point of the unit sphere with y = cos(phi), x = sin(phi)*cos(theta),
    z = sin(phi)*sin(theta), where theta = itheta * (2*pi / (vres-1)) and
    phi = iphi * (pi / (ures-1)); every vertex is at distance 1 from the
    origin; the index sequence has length ures*(vres-1)*2 and all its
    entries lie in [0, ures*vres); both arrays are the same whatever the
    state the call starts in, and calling again with the same arguments
    changes nothing. *)
Theorem sphereDetail_mesh (ur vr : Z) (s : state) :
  is_int ur -> is_int vr -> 2 <= ur -> 2 <= vr ->
  exists s' : state,
    run (cprocessing.sphereDetail ur vr) s = inr (tt, s') /\
    Z.of_nat (length (Globals.sphereVtx s')) = ur * vr /\
    (forall itheta iphi : Z, 0 <= itheta < vr -> 0 <= iphi < ur ->
       exists v : PVector,
         nth_error (Globals.sphereVtx s') (Z.to_nat (itheta * ur + iphi)) = Some v /\
         at_spherical (IZR iphi * (PI / IZR (ur - 1)))
                      (IZR itheta * (2 * PI / IZR (vr - 1))) v) /\
    (forall v : PVector, In v (Globals.sphereVtx s') -> norm v = 1%R) /\
    Z.of_nat (length (Globals.sphereIdx s')) = ur * (vr - 1) * 2 /\
    (forall i : Z, In i (Globals.sphereIdx s') -> 0 <= i < ur * vr) /\
    (forall t : state,
       exists t' : state,
         run (cprocessing.sphereDetail ur vr) t = inr (tt, t') /\
         Globals.sphereVtx t' = Globals.sphereVtx s' /\
         Globals.sphereIdx t' = Globals.sphereIdx s') /\
    run (cprocessing.sphereDetail ur vr) s' = inr (tt, s').
Proof.
  intros Hur Hvr Hu Hv. exists (after_sphereDetail ur vr s).
  split; [apply sphereDetail_returns; assumption |].
  cbn [after_sphereDetail Globals.sphereVtx Globals.sphereIdx Globals.set_sphereIdx
       Globals.set_sphereVtx].
  split; [apply sphere_vertices_length; lia |].
  split.
  { intros itheta iphi Ht Hp. exists (sphere_vertex ur vr itheta iphi).
    split; [apply sphere_vertices_nth; assumption |].
    apply sphere_vertex_spherical; assumption. }
  split.
  { intros v Hin. apply sphere_vertices_In in Hin.
    destruct Hin as (itheta & iphi & _ & _ & ->).
    eapply norm_spherical. apply sphere_vertex_spherical; assumption. }
  split; [apply sphere_indices_length; [lia | exact Hvr | lia] |].
  split; [intros i Hi; apply (sphere_indices_bound ur vr i Hvr); [lia | exact Hi] |].
  split.
  { intros t. exists (after_sphereDetail ur vr t).
    split; [apply sphereDetail_returns; assumption | split; reflexivity]. }
  rewrite sphereDetail_returns by assumption. reflexivity.
Qed.

Lemma failure_sphereDetail (ur vr : Z) (s : state) :
  failure (cprocessing.sphereDetail ur vr) s =
  if divides_by_zero ur vr then Some DivisionByZero else None.
Proof.
  unfold failure. rewrite run_sphereDetail.
  destruct (divides_by_zero ur vr); reflexivity.
Qed.

(** C8.  For ures >= 2 and vres >= 2, [sphereDetail] runs to its end
    without any failure, so neither divisor (vres-1, ures-1) is zero when
    it is used.  The function checks nothing itself: it stops on a division
    by zero exactly when vres = 1, or ures = 1 with vres >= 1, and in every
    other case it returns. *)
Theorem sphereDetail_division (ur vr : Z) (s : state) :
  is_int ur -> is_int vr ->
  (2 <= ur -> 2 <= vr ->
   failure (cprocessing.sphereDetail ur vr) s = None /\
   wrap_int (vr - 1) <> 0 /\ wrap_int (ur - 1) <> 0) /\
  (vr = 1 \/ (ur = 1 /\ 1 <= vr) ->
   failure (cprocessing.sphereDetail ur vr) s = Some DivisionByZero) /\
  (~ (vr = 1 \/ (ur = 1 /\ 1 <= vr)) ->
   failure (cprocessing.sphereDetail ur vr) s = None).
Proof.
  intros Hur Hvr. rewrite failure_sphereDetail.
  pose proof (divides_by_zero_spec ur vr Hur Hvr) as Hspec.
  destruct (divides_by_zero ur vr).
  - assert (H : vr = 1 \/ ur = 1 /\ 1 <= vr) by (apply Hspec; reflexivity).
    split; [intros; lia |]. split; [reflexivity | intros F; contradiction].
  - assert (H : ~ (vr = 1 \/ ur = 1 /\ 1 <= vr))
      by (intros F; apply Hspec in F; discriminate).
    split; [| split; [intros F; contradiction | reflexivity]].
    intros Hu Hv. split; [reflexivity |].
    unfold is_int, INT_MIN, INT_MAX in Hur, Hvr.
    rewrite !wrap_int_id by (unfold is_int, INT_MIN, INT_MAX; lia). lia.
Qed.

(** ** The element count of sphere *)

Lemma sphere_count_exact (ur vr : Z) :
  2 <= ur -> 2 <= vr -> ur * (vr - 1) * 2 <= INT_MAX ->
  cprocessing.sphere_count ur vr = ur * (vr - 1) * 2.
Proof.
  unfold INT_MAX. intros Hu Hv Hmax. unfold cprocessing.sphere_count.
  assert (is_int (vr - 1)) by (unfold is_int, INT_MIN, INT_MAX; nia).
  rewrite (wrap_int_id (vr - 1)) by assumption.
  assert (is_int (ur * (vr - 1))) by (unfold is_int, INT_MIN, INT_MAX; nia).
  rewrite (wrap_int_id (ur * (vr - 1))) by assumption.
  apply wrap_int_id. unfold is_int, INT_MIN, INT_MAX; nia.
Qed.

(** The count is the product exactly when the product fits an [int]. *)
Lemma sphere_count_exact_iff (ur vr : Z) :
  2 <= ur -> 2 <= vr ->
  cprocessing.sphere_count ur vr = ur * (vr - 1) * 2 <-> ur * (vr - 1) * 2 <= INT_MAX.
Proof.
  intros Hu Hv. split; [| apply sphere_count_exact; assumption].
  intros E. rewrite <- E. unfold cprocessing.sphere_count.
  apply (wrap_int_range (wrap_int (ur * wrap_int (vr - 1)) * 2)).
Qed.

Lemma sphere_calls_elements (fill stroke : color) (ures vres : Z) (radius : R)
      (mode : GLenum) (count : Z) (type : GLenum) (p : pointer) :
  In (glDrawElements mode count type p) (sphere_calls fill stroke ures vres radius) ->
  count = cprocessing.sphere_count ures vres /\ p = addr_sphereIdx 0.
Proof.
  unfold sphere_calls.
  destruct (rgba3 fill >? 0); destruct (rgba3 stroke >? 0); cbn [app In];
    intros H; repeat (destruct H as [H | H]; [try discriminate H |]);
    try contradiction; try (injection H as _ <- _ <-; split; reflexivity).
Qed.

Lemma after_sphereDetail_fields (ur vr : Z) (s : state) :
  Globals.ures (after_sphereDetail ur vr s) = ur /\
  Globals.vres (after_sphereDetail ur vr s) = vr /\
  Globals.sphereVtx (after_sphereDetail ur vr s) = sphere_vertices ur vr /\
  Globals.sphereIdx (after_sphereDetail ur vr s) = sphere_indices ur vr /\
  Globals.fillColor (after_sphereDetail ur vr s) = Globals.fillColor s /\
  Globals.strokeColor (after_sphereDetail ur vr s) = Globals.strokeColor s.
Proof. repeat split. Qed.

Lemma nonempty_of_length {A : Type} (l : list A) (n : Z) :
  Z.of_nat (length l) = n -> 0 < n -> l <> [].
Proof. intros H Hn ->. cbn in H. lia. Qed.

(** C10 does not hold for all ures, vres >= 2: with ures = 2 and
    vres = 536870913 the index array has 2^31 entries, the count computed in
    [int] is -2^31, and that is the count [sphere] hands to the backend. *)
Lemma sphere_count_overflows :
  exists s' : state,
    run (cprocessing.sphereDetail 2 536870913)
        (cprocessing.initial 3 (mkColor 255 255 255 255) (mkColor 0 0 0 255)) =
      inr (tt, s') /\
    Z.of_nat (length (Globals.sphereIdx s')) =
      Globals.ures s' * (Globals.vres s' - 1) * 2 /\
    Z.of_nat (length (Globals.sphereIdx s')) = 2147483648 /\
    cprocessing.sphere_count (Globals.ures s') (Globals.vres s') = -2147483648 /\
    cprocessing.sphere_count (Globals.ures s') (Globals.vres s') <>
      Z.of_nat (length (Globals.sphereIdx s')) /\
    exists l : list glcall,
      run (cprocessing.sphere 1) s' = inr (tt, issued l s') /\
      In (glDrawElements GL_QUAD_STRIP (-2147483648) GL_UNSIGNED_INT (addr_sphereIdx 0)) l.
Proof.
  set (s := cprocessing.initial 3 (mkColor 255 255 255 255) (mkColor 0 0 0 255)).
  assert (Hur : is_int 2) by (unfold is_int, INT_MIN, INT_MAX; lia).
  assert (Hvr : is_int 536870913) by (unfold is_int, INT_MIN, INT_MAX; lia).
  exists (after_sphereDetail 2 536870913 s).
  destruct (after_sphereDetail_fields 2 536870913 s) as (Eu & Ev & Evtx & Eidx & Ef & Es).
  pose proof (sphere_vertices_length 2 536870913 ltac:(lia) ltac:(lia)) as Lv.
  pose proof (sphere_indices_length 2 536870913 ltac:(lia) Hvr ltac:(lia)) as Li.
  split; [apply sphereDetail_returns; (assumption || lia) |].
  rewrite Eu, Ev, Eidx, Li.
  split; [reflexivity |]. split; [reflexivity |]. split; [reflexivity |].
  split; [discriminate |].
  eexists. split.
  - apply run_sphere.
    + rewrite Evtx. apply (nonempty_of_length _ _ Lv). lia.
    + rewrite Eidx. apply (nonempty_of_length _ _ Li). lia.
  - rewrite Eu, Ev, Ef, Es. unfold sphere_calls. cbn [s cprocessing.initial Globals.fillColor Globals.strokeColor rgba3].
    right; right; right; right; right; right; right; right; right; left. reflexivity.
Qed.

(** ** What a call that returns has done *)

Section Calls.

Variables CENTER RADIUS CORNER CORNERS : Z.

Lemma run_ellipseMode (mode : Z) (s : state) :
  run (cprocessing.ellipseMode CENTER RADIUS CORNER CORNERS mode) s =
  if (mode =? CENTER) || (mode =? RADIUS) || (mode =? CORNER) || (mode =? CORNERS)
  then inr (tt, Globals.set_ellipseMode mode s)
  else inl AssertionFailure.
Proof.
  unfold cprocessing.ellipseMode, cprocessing.assert.
  destruct ((mode =? CENTER) || (mode =? RADIUS) || (mode =? CORNER) || (mode =? CORNERS));
    reflexivity.
Qed.

Lemma valid_mode_test (mode : Z) :
  (mode =? CENTER) || (mode =? RADIUS) || (mode =? CORNER) || (mode =? CORNERS) = true
  <-> valid_mode CENTER RADIUS CORNER CORNERS mode.
Proof.
  unfold valid_mode. rewrite !orb_true_iff, !Z.eqb_eq. tauto.
Qed.

Lemma call_returns (c : api) (s s' : state) :
  run (call CENTER RADIUS CORNER CORNERS c) s = inr (tt, s') ->
  match c with
  | EllipseDetail n => s' = Globals.set_ellipseVtx (ellipse_mesh n) s
  | EllipseMode mode =>
    valid_mode CENTER RADIUS CORNER CORNERS mode /\ s' = Globals.set_ellipseMode mode s
  | SphereDetail ur vr =>
    divides_by_zero ur vr = false /\ s' = after_sphereDetail ur vr s
  | _ => exists l : list glcall, s' = issued l s
  end.
Proof.
  destruct c; cbn [call].
  - rewrite run_line. intros [= <-]. eexists; reflexivity.
  - rewrite run_triangle. intros [= <-]. eexists; reflexivity.
  - rewrite run_quad. intros [= <-]. eexists; reflexivity.
  - rewrite run_point. intros [= <-]. eexists; reflexivity.
  - rewrite run_ellipseDetail. intros [= <-]. reflexivity.
  - rewrite run_ellipseMode.
    destruct (_ || _) eqn:E; [| discriminate].
    intros [= <-]. split; [apply valid_mode_test; exact E | reflexivity].
  - rewrite run_ellipse. destruct (Globals.ellipseVtx s); [discriminate |].
    intros [= <-]. eexists; reflexivity.
  - rewrite run_sphereDetail. destruct (divides_by_zero ur vr); [discriminate |].
    intros [= <-]. split; reflexivity.
  - intros H. apply sphere_returns in H. eexists; exact H.
Qed.

(** Only [ellipseMode] writes [::ellipseMode]. *)
Lemma call_keeps_mode (c : api) (s s' : state) :
  is_EllipseMode c = false ->
  run (call CENTER RADIUS CORNER CORNERS c) s = inr (tt, s') ->
  Globals.ellipseMode s' = Globals.ellipseMode s.
Proof.
  intros Hc Hrun. apply call_returns in Hrun.
  destruct c; try discriminate Hc;
    first [ rewrite Hrun; reflexivity | destruct Hrun as [? ->]; reflexivity ].
Qed.

Lemma calls_keep_mode (cs : list api) (s s' : state) :
  forallb (fun c => negb (is_EllipseMode c)) cs = true ->
  run (calls CENTER RADIUS CORNER CORNERS cs) s = inr (tt, s') ->
  Globals.ellipseMode s' = Globals.ellipseMode s.
Proof.
  revert s; induction cs as [| c cs IH]; intros s Hcs; cbn [calls].
  - rewrite run_ret. intros [= <-]. reflexivity.
  - cbn [forallb] in Hcs. apply andb_true_iff in Hcs. destruct Hcs as [Hc Hcs].
    rewrite run_bind.
    destruct (run (call CENTER RADIUS CORNER CORNERS c) s) as [e | [[] s1]] eqn:E;
      [discriminate |].
    intros Hrest. rewrite (IH s1 Hcs Hrest).
    apply (call_keeps_mode c); [destruct (is_EllipseMode c); [discriminate | reflexivity] | exact E].
Qed.

(** Only [sphereDetail] writes the sphere arrays, [ures] and [vres]. *)
Lemma call_keeps_sphere (c : api) (s s' : state) :
  is_SphereDetail c = false ->
  run (call CENTER RADIUS CORNER CORNERS c) s = inr (tt, s') ->
  Globals.ures s' = Globals.ures s /\ Globals.vres s' = Globals.vres s /\
  Globals.sphereVtx s' = Globals.sphereVtx s /\ Globals.sphereIdx s' = Globals.sphereIdx s.
Proof.
  intros Hc Hrun. apply call_returns in Hrun.
  destruct c; try discriminate Hc;
    first [ rewrite Hrun; repeat split | destruct Hrun as [? ->]; repeat split ].
Qed.

Lemma calls_keep_sphere (cs : list api) (s s' : state) :
  forallb (fun c => negb (is_SphereDetail c)) cs = true ->
  run (calls CENTER RADIUS CORNER CORNERS cs) s = inr (tt, s') ->
  Globals.ures s' = Globals.ures s /\ Globals.vres s' = Globals.vres s /\
  Globals.sphereVtx s' = Globals.sphereVtx s /\ Globals.sphereIdx s' = Globals.sphereIdx s.
Proof.
  revert s; induction cs as [| c cs IH]; intros s Hcs; cbn [calls].
  - rewrite run_ret. intros [= <-]. repeat split.
  - cbn [forallb] in Hcs. apply andb_true_iff in Hcs. destruct Hcs as [Hc Hcs].
    rewrite run_bind.
    destruct (run (call CENTER RADIUS CORNER CORNERS c) s) as [e | [[] s1]] eqn:E;
      [discriminate |].
    intros Hrest. destruct (IH s1 Hcs Hrest) as (-> & -> & -> & ->).
    apply (call_keeps_sphere c); [destruct (is_SphereDetail c); [discriminate | reflexivity] | exact E].
Qed.

(** C10, as the code has it.  When ures >= 2, vres >= 2 and the product
    ures*(vres-1)*2 fits an [int], [sphereDetail ures vres] returns, and in
    the state it leaves, as in every state reached from it by calls of the
    unit other than [sphereDetail]: the vertex array has ures*vres entries,
    the index array has ures*(vres-1)*2 entries, the count [sphere]
    computes from the stored [ures] and [vres] is the length of the index
    array, every index is the position of a vertex, and every
    glDrawElements call that [sphere] issues carries that count and the
    start of the index array. *)
Theorem sphereDetail_count (ur vr : Z) (s : state) :
  2 <= ur -> 2 <= vr -> ur * (vr - 1) * 2 <= INT_MAX ->
  exists s' : state,
    run (cprocessing.sphereDetail ur vr) s = inr (tt, s') /\
    forall (cs : list api) (s'' : state),
      forallb (fun c => negb (is_SphereDetail c)) cs = true ->
      run (calls CENTER RADIUS CORNER CORNERS cs) s' = inr (tt, s'') ->
      Z.of_nat (length (Globals.sphereVtx s'')) = Globals.ures s'' * Globals.vres s'' /\
      Z.of_nat (length (Globals.sphereIdx s'')) =
        Globals.ures s'' * (Globals.vres s'' - 1) * 2 /\
      cprocessing.sphere_count (Globals.ures s'') (Globals.vres s'') =
        Z.of_nat (length (Globals.sphereIdx s'')) /\
      (forall i : Z, In i (Globals.sphereIdx s'') ->
         0 <= i < Z.of_nat (length (Globals.sphereVtx s''))) /\
      (forall radius : R,
         exists l : list glcall,
           run (cprocessing.sphere radius) s'' = inr (tt, issued l s'') /\
           forall mode count type p,
             In (glDrawElements mode count type p) l ->
             count = Z.of_nat (length (Globals.sphereIdx s'')) /\ p = addr_sphereIdx 0).
Proof.
  intros Hu Hv Hmax.
  assert (Hur : is_int ur) by (unfold is_int, INT_MIN, INT_MAX in *; nia).
  assert (Hvr : is_int vr) by (unfold is_int, INT_MIN, INT_MAX in *; nia).
  exists (after_sphereDetail ur vr s).
  split; [apply sphereDetail_returns; assumption |].
  intros cs s'' Hcs Hrun.
  destruct (calls_keep_sphere cs _ s'' Hcs Hrun) as (Eu & Ev & Evtx & Eidx).
  destruct (after_sphereDetail_fields ur vr s) as (Fu & Fv & Fvtx & Fidx & _).
  rewrite Fu in Eu. rewrite Fv in Ev. rewrite Fvtx in Evtx. rewrite Fidx in Eidx.
  rewrite Eu, Ev, Evtx, Eidx.
  pose proof (sphere_vertices_length ur vr ltac:(lia) ltac:(lia)) as Lv.
  pose proof (sphere_indices_length ur vr ltac:(lia) Hvr ltac:(lia)) as Li.
  split; [exact Lv |]. split; [exact Li |].
  split; [rewrite Li; apply sphere_count_exact; assumption |].
  split.
  { intros i Hi. rewrite Lv. apply (sphere_indices_bound ur vr i Hvr); [lia | exact Hi]. }
  intros radius. eexists. split.
  - apply run_sphere.
    + rewrite Evtx. apply (nonempty_of_length _ _ Lv). nia.
    + rewrite Eidx. apply (nonempty_of_length _ _ Li). nia.
  - intros mode count type p Hin. apply sphere_calls_elements in Hin.
    destruct Hin as [-> ->]. rewrite Eu, Ev, Li.
    split; [apply sphere_count_exact; assumption | reflexivity].
Qed.

End Calls.

(** ** ellipseMode *)

Section Mode.

Variables CENTER RADIUS CORNER CORNERS : Z.

(** C5.  [ellipseMode mode] stops on a failed assertion if and only if
    [mode] is none of CENTER, RADIUS, CORNER, CORNERS, and then leaves no
    state behind (no default is stored).  For a valid mode it returns and
    changes [::ellipseMode] to [mode] and nothing else; the stored mode
    stays [mode] through any sequence of calls of the unit that contains no
    [ellipseMode]; and an [ellipse] called after such a sequence adjusts
    its arguments by the [switch] on that mode. *)
Theorem ellipseMode_validates (mode : Z) (s : state) :
  (failure (cprocessing.ellipseMode CENTER RADIUS CORNER CORNERS mode) s =
     Some AssertionFailure <->
   ~ valid_mode CENTER RADIUS CORNER CORNERS mode) /\
  (~ valid_mode CENTER RADIUS CORNER CORNERS mode ->
   run (cprocessing.ellipseMode CENTER RADIUS CORNER CORNERS mode) s =
     inl AssertionFailure) /\
  (valid_mode CENTER RADIUS CORNER CORNERS mode ->
   run (cprocessing.ellipseMode CENTER RADIUS CORNER CORNERS mode) s =
     inr (tt, Globals.set_ellipseMode mode s) /\
   forall (cs : list api) (s1 : state),
     forallb (fun c => negb (is_EllipseMode c)) cs = true ->
     run (calls CENTER RADIUS CORNER CORNERS cs) (Globals.set_ellipseMode mode s) =
       inr (tt, s1) ->
     Globals.ellipseMode s1 = mode /\
     forall x y width height : R,
       Globals.ellipseVtx s1 <> [] ->
       run (cprocessing.ellipse CENTER RADIUS CORNERS x y width height) s1 =
       inr (tt, issued
         (ellipse_calls (Globals.fillColor s1) (Globals.strokeColor s1)
            (length (Globals.ellipseVtx s1))
            (cprocessing.ellipse_switch CENTER RADIUS CORNERS mode x y width height))
         s1)).
Proof.
  unfold failure. rewrite run_ellipseMode.
  pose proof (valid_mode_test CENTER RADIUS CORNER CORNERS mode) as Htest.
  destruct ((mode =? CENTER) || (mode =? RADIUS) || (mode =? CORNER) || (mode =? CORNERS)).
  - assert (Hvalid : valid_mode CENTER RADIUS CORNER CORNERS mode)
      by (apply Htest; reflexivity).
    split; [split; [discriminate | intros F; contradiction] |].
    split; [intros F; contradiction |].
    intros _. split; [reflexivity |].
    intros cs s1 Hcs Hrun.
    assert (Hmode : Globals.ellipseMode s1 = mode)
      by (rewrite (calls_keep_mode CENTER RADIUS CORNER CORNERS cs _ s1 Hcs Hrun);
          reflexivity).
    split; [exact Hmode |].
    intros x y width height Hmesh. rewrite <- Hmode.
    apply run_ellipse_returns. exact Hmesh.
  - assert (Hinvalid : ~ valid_mode CENTER RADIUS CORNER CORNERS mode)
      by (intros F; apply Htest in F; discriminate).
    split; [split; [intros _; exact Hinvalid | reflexivity] |].
    split; [reflexivity | intros F; contradiction].
Qed.

(** ** Drawing from an empty cache *)




End Mode.


(** ** The runs a division by zero does not stop *)

Lemma fold_rows_sphereVtx_loops (vertex : Z -> Z -> PVector) (ur : Z) (itheta : Z)
      (s : state) :
  run (for_lt ur (fun iphi => sphereVtx_push_back (vertex itheta iphi))) s =
  inr (tt, Globals.set_sphereVtx
             (Globals.sphereVtx s ++ map (vertex itheta) (counter_values 0 (Z.to_nat ur))) s).
Proof.
  unfold for_lt.
  rewrite run_for_from with
    (g := fun j t => Globals.set_sphereVtx (Globals.sphereVtx t ++ [vertex itheta j]) t)
    by (intros; reflexivity).
  rewrite fold_rows_sphereVtx, flat_map_singleton. reflexivity.
Qed.

Lemma run_sphereDetail_loops (vertex : Z -> Z -> PVector) (ur vr : Z) (s : state) :
  run (sphereDetail_loops vertex ur vr) s =
  inr (tt, Globals.set_sphereIdx (sphere_indices ur vr)
             (Globals.set_sphereVtx (vertex_grid vertex ur vr)
                (Globals.set_vres vr (Globals.set_ures ur s)))).
Proof.
  unfold sphereDetail_loops, vertex_grid.
  do 3 (rewrite run_bind, run_modify; cbv iota beta).
  rewrite run_bind. unfold for_lt at 1.
  rewrite run_for_from with
    (g := fun j t => Globals.set_sphereVtx
            (Globals.sphereVtx t ++ map (vertex j) (counter_values 0 (Z.to_nat ur))) t)
    by (intros j t _; apply fold_rows_sphereVtx_loops).
  rewrite fold_rows_sphereVtx.
  rewrite run_bind, run_modify; cbv iota beta.
  rewrite run_index_pass. reflexivity.
Qed.

(** Where [sphereDetail] divides by no zero, it is [sphereDetail_loops] at
    the vertices it computes. *)
Lemma sphereDetail_loops_agree (ur vr : Z) (s : state) :
  divides_by_zero ur vr = false ->
  run (cprocessing.sphereDetail ur vr) s =
  run (sphereDetail_loops (sphere_vertex ur vr) ur vr) s.
Proof.
  intros H. rewrite run_sphereDetail, H, run_sphereDetail_loops. reflexivity.
Qed.

(** Where it does, at (30, 1), the loops lead from the initial state to the
    state [after_sphereDetail_30_1]. *)
Lemma sphereDetail_loops_30_1 :
  exists s' : state,
    run (sphereDetail_loops (fun _ _ => mkPVector 0 0 0) 30 1)
        (cprocessing.initial 3 white black) = inr (tt, s') /\
    s' = after_sphereDetail_30_1.
Proof.
  eexists. split; [apply run_sphereDetail_loops | reflexivity].
Qed.

(** ** sphere *)

Lemma draws_sphere_calls (fill stroke : color) (ures vres : Z) (radius : R) :
  matrix_changes (sphere_calls fill stroke ures vres radius) =
    [glScaled radius radius radius] /\
  Forall (fun d => forall p, snd d p = scaling radius radius radius p)
         (draws (sphere_calls fill stroke ures vres radius)) /\
  length (draws (sphere_calls fill stroke ures vres radius)) =
    ((if rgba3 fill >? 0 then 1 else 0) + (if rgba3 stroke >? 0 then 1 else 0))%nat.
Proof.
  unfold matrix_changes, draws, sphere_calls.
  destruct (rgba3 fill >? 0); destruct (rgba3 stroke >? 0); cbn;
    (split; [reflexivity | split; [repeat constructor | reflexivity]]).
Qed.

Lemma sphere_returns_again (r1 r2 : R) (l : list glcall) (s s1 : state) :
  run (cprocessing.sphere r1) s = inr (tt, s1) ->
  run (cprocessing.sphere r2) (issued l s) =
  inr (tt, issued (sphere_calls (Globals.fillColor s) (Globals.strokeColor s)
                     (Globals.ures s) (Globals.vres s) r2) (issued l s)).
Proof.
  rewrite !run_sphere_cases.
  cbn [issued Globals.set_gl Globals.sphereVtx Globals.sphereIdx Globals.fillColor
       Globals.strokeColor Globals.ures Globals.vres].
  destruct (Globals.sphereVtx s); [discriminate |].
  destruct (Globals.sphereIdx s); [destruct (_ || _); [discriminate |] |];
    intros _; reflexivity.
Qed.

(** C9.  Whenever [sphere r1] returns, a following [sphere r2] returns
    too; the only matrix change the first issues is the uniform scale by
    r1 and the only one the second issues is the uniform scale by r2, and
    these are the transforms their draws are issued under; the vertex
    array, the index array, [ures] and [vres] are the same before the first
    call, between the two, and after the second. *)
Theorem sphere_radius_only (r1 r2 : R) (s s1 : state) :
  run (cprocessing.sphere r1) s = inr (tt, s1) ->
  exists (l1 l2 : list glcall) (s2 : state),
    s1 = issued l1 s /\
    run (cprocessing.sphere r2) s1 = inr (tt, s2) /\ s2 = issued l2 s1 /\
    matrix_changes l1 = [glScaled r1 r1 r1] /\
    matrix_changes l2 = [glScaled r2 r2 r2] /\
    Forall (fun d => forall p, snd d p = scaling r1 r1 r1 p) (draws l1) /\
    Forall (fun d => forall p, snd d p = scaling r2 r2 r2 p) (draws l2) /\
    (Globals.sphereVtx s1 = Globals.sphereVtx s /\
     Globals.sphereIdx s1 = Globals.sphereIdx s /\
     Globals.ures s1 = Globals.ures s /\ Globals.vres s1 = Globals.vres s) /\
    (Globals.sphereVtx s2 = Globals.sphereVtx s /\
     Globals.sphereIdx s2 = Globals.sphereIdx s /\
     Globals.ures s2 = Globals.ures s /\ Globals.vres s2 = Globals.vres s).
Proof.
  intros Hrun.
  set (l1 := sphere_calls (Globals.fillColor s) (Globals.strokeColor s)
               (Globals.ures s) (Globals.vres s) r1).
  set (l2 := sphere_calls (Globals.fillColor s) (Globals.strokeColor s)
               (Globals.ures s) (Globals.vres s) r2).
  exists l1, l2, (issued l2 (issued l1 s)).
  pose proof (sphere_returns r1 s s1 Hrun) as ->. fold l1.
  split; [reflexivity |].
  split; [apply (sphere_returns_again r1 r2 l1 s _ Hrun) |]. split; [reflexivity |].
  destruct (draws_sphere_calls (Globals.fillColor s) (Globals.strokeColor s)
              (Globals.ures s) (Globals.vres s) r1) as (M1 & D1 & _).
  destruct (draws_sphere_calls (Globals.fillColor s) (Globals.strokeColor s)
              (Globals.ures s) (Globals.vres s) r2) as (M2 & D2 & _).
  repeat split; assumption.
Qed.

(** * The properties on concrete calls

    The mode constants take Processing's values: CENTER = 3, RADIUS = 2,
    CORNERS = 1, CORNER = 0.  [ellipseMode] is applied to
    (CENTER, RADIUS, CORNER, CORNERS) and [ellipse] to
    (CENTER, RADIUS, CORNERS), the constants each of them mentions. *)

(** C1 at n = 3, from the initial state. *)
Lemma ellipseDetail_mesh_witness :
  3 <= 3 /\
  exists s' : state,
    run (cprocessing.ellipseDetail 3) (cprocessing.initial 3 white black) = inr (tt, s') /\
    Z.of_nat (length (Globals.ellipseVtx s')) = 3.
Proof.
  split; [lia |].
  destruct (ellipseDetail_mesh 3 (cprocessing.initial 3 white black) ltac:(lia))
    as (s' & Hrun & _ & Hlen & _).
  exists s'. split; assumption.
Defined.

(** C2 at ures = 3, vres = 4. *)
Lemma sphereDetail_mesh_witness :
  exists s' : state,
    run (cprocessing.sphereDetail 3 4) (cprocessing.initial 3 white black) = inr (tt, s') /\
    Z.of_nat (length (Globals.sphereVtx s')) = 12 /\
    Z.of_nat (length (Globals.sphereIdx s')) = 18 /\
    (forall i : Z, In i (Globals.sphereIdx s') -> 0 <= i < 12).
Proof.
  destruct (sphereDetail_mesh 3 4 (cprocessing.initial 3 white black))
    as (s' & Hrun & Hv & _ & _ & Hi & Hb & _);
    try (unfold is_int, INT_MIN, INT_MAX; lia).
  exists s'. repeat split; try assumption; apply Hb; assumption.
Defined.

(** C3 on [ellipseMode(CENTER); ellipse(10,10,4,4)]. *)
Lemma ellipse_placement_witness :
  exists l : list glcall,
    run (cprocessing.ellipse 3 2 1 10 10 4 4) (configured 3 white black) =
      inr (tt, issued l (configured 3 white black)) /\
    length (draws l) = 2%nat /\
    Forall (fun d => places (snd d) 10 10 4 4 /\
                     boxed (snd d) (10 - 4 / 2) (10 - 4 / 2) (10 + 4 / 2) (10 + 4 / 2))
           (draws l).
Proof.
  destruct (ellipse_placement 3 2 0 1 ltac:(unfold distinct_modes; lia) 10 10 4 4
              (configured 3 white black) ltac:(discriminate))
    as (l & Hrun & Hlen & Hcenter & _).
  exists l. split; [exact Hrun |]. split; [exact Hlen |].
  apply Hcenter. reflexivity.
Defined.

(** C3 on [ellipseMode(CORNERS); ellipse(0,0,10,6)]. *)
Example corners_example_0_0_10_6 :
  exists l : list glcall,
    run (cprocessing.ellipse 3 2 1 0 0 10 6) (configured 1 white black) =
      inr (tt, issued l (configured 1 white black)) /\
    Forall (fun d => boxed (snd d) 0 0 10 6) (draws l).
Proof.
  exists (ellipse_calls white black 4 (0, 0, 10 - 0, 6 - 0)%R).
  split; [reflexivity |].
  destruct (draws_ellipse_calls white black 4 0 0 (10 - 0) (6 - 0)) as (H & _).
  eapply Forall_impl; [| exact H]. intros d Hd. apply places_boxed in Hd.
  revert Hd; apply boxed_ext; lra.
Qed.

(** C4 on [ellipseMode(CORNER); ellipse(1,2,8,6)]. *)
Lemma ellipse_CORNER_witness :
  exists l : list glcall,
    run (cprocessing.ellipse 3 2 1 1 2 8 6) (configured 0 white black) =
      inr (tt, issued l (configured 0 white black)) /\
    matrix_changes l = [glTranslatef 1 2 0; glScalef 8 6 1; glTranslatef (1 / 2) (1 / 2) 0] /\
    Forall (fun d => boxed (snd d) 1 2 (1 + 8) (2 + 6)) (draws l).
Proof.
  destruct (ellipse_CORNER 3 2 0 1 ltac:(unfold distinct_modes; lia) 1 2 8 6
              (configured 0 white black) eq_refl ltac:(discriminate))
    as (_ & l & Hrun & Hmat & _ & Hdraws).
  exists l. split; [exact Hrun |]. split; [exact Hmat |].
  eapply Forall_impl; [| exact Hdraws]. intros d (_ & _ & Hbox). exact Hbox.
Defined.

(** C5 on an invalid and on a valid mode. *)
Lemma ellipseMode_validates_witness :
  run (cprocessing.ellipseMode 3 2 0 1 7) (configured 3 white black) = inl AssertionFailure /\
  run (cprocessing.ellipseMode 3 2 0 1 2) (configured 3 white black) =
    inr (tt, Globals.set_ellipseMode 2 (configured 3 white black)).
Proof.
  split.
  - apply (ellipseMode_validates 3 2 0 1 7 (configured 3 white black)).
    unfold valid_mode. lia.
  - apply (ellipseMode_validates 3 2 0 1 2 (configured 3 white black)).
    unfold valid_mode. lia.
Defined.


(** C8 on [sphereDetail(30,30)], [sphereDetail(30,1)] and [sphereDetail(1,30)]. *)
Lemma sphereDetail_division_witness :
  failure (cprocessing.sphereDetail 30 30) (cprocessing.initial 3 white black) = None /\
  failure (cprocessing.sphereDetail 30 1) (cprocessing.initial 3 white black) =
    Some DivisionByZero /\
  failure (cprocessing.sphereDetail 1 30) (cprocessing.initial 3 white black) =
    Some DivisionByZero.
Proof.
  split; [| split].
  - apply (sphereDetail_division 30 30 (cprocessing.initial 3 white black));
      unfold is_int, INT_MIN, INT_MAX; lia.
  - apply (sphereDetail_division 30 1 (cprocessing.initial 3 white black));
      unfold is_int, INT_MIN, INT_MAX; lia.
  - apply (sphereDetail_division 1 30 (cprocessing.initial 3 white black));
      unfold is_int, INT_MIN, INT_MAX; lia.
Defined.

(** C9 on [sphere(2); sphere(3)]. *)
Lemma sphere_radius_only_witness :
  exists (l1 l2 : list glcall) (s1 s2 : state),
    run (cprocessing.sphere 2) (configured 3 white black) = inr (tt, s1) /\
    run (cprocessing.sphere 3) s1 = inr (tt, s2) /\
    matrix_changes l1 = [glScaled 2 2 2] /\
    matrix_changes l2 = [glScaled 3 3 3] /\
    s2 = issued l2 (issued l1 (configured 3 white black)).
Proof.
  assert (R1 : run (cprocessing.sphere 2) (configured 3 white black) =
               inr (tt, issued (sphere_calls white black 2 2 2) (configured 3 white black)))
    by reflexivity.
  destruct (sphere_radius_only 2 3 (configured 3 white black) _ R1)
    as (l1 & l2 & s2 & E1 & R2 & E2 & M1 & M2 & _).
  exists l1, l2, (issued l1 (configured 3 white black)), s2.
  rewrite <- E1. split; [exact R1 |]. repeat split; assumption.
Defined.

(** C10 (as the code has it) on [sphereDetail(30,30)]. *)
Lemma sphereDetail_count_witness :
  exists s' : state,
    run (cprocessing.sphereDetail 30 30) (cprocessing.initial 3 white black) = inr (tt, s') /\
    cprocessing.sphere_count (Globals.ures s') (Globals.vres s') =
      Z.of_nat (length (Globals.sphereIdx s')).
Proof.
  destruct (sphereDetail_count 3 2 0 1 30 30 (cprocessing.initial 3 white black))
    as (s' & Hrun & Hinv); try (unfold INT_MAX; lia).
  exists s'. split; [exact Hrun |].
  apply (Hinv [] s' eq_refl eq_refl).
Defined.

(** * Further properties *)

(** ** What every call sends to the backend *)

Section Streams.

Variables CENTER RADIUS CORNER CORNERS : Z.

Lemma call_stream (c : api) (s s' : state) :
  run (call CENTER RADIUS CORNER CORNERS c) s = inr (tt, s') ->
  Globals.gl s' = Globals.gl s ++ stream CENTER RADIUS CORNERS c s /\
  (is_draw c = true -> s' = issued (stream CENTER RADIUS CORNERS c s) s).
Proof.
  destruct c; cbn [call stream is_draw].
  - rewrite run_line. intros [= <-]. split; reflexivity.
  - rewrite run_triangle. intros [= <-]. split; reflexivity.
  - rewrite run_quad. intros [= <-]. split; reflexivity.
  - rewrite run_point. intros [= <-]. split; reflexivity.
  - rewrite run_ellipseDetail. intros [= <-]. cbn. rewrite app_nil_r.
    split; [reflexivity | discriminate].
  - rewrite run_ellipseMode. destruct (_ || _); [| discriminate].
    intros [= <-]. cbn. rewrite app_nil_r. split; [reflexivity | discriminate].
  - rewrite run_ellipse. destruct (Globals.ellipseVtx s) eqn:E; [discriminate |].
    intros [= <-]. split; reflexivity.
  - rewrite run_sphereDetail. destruct (divides_by_zero ur vr); [discriminate |].
    intros [= <-]. cbn. rewrite app_nil_r. split; [reflexivity | discriminate].
  - intros H. apply sphere_returns in H. subst s'. split; reflexivity.
Qed.

End Streams.

Section Backend.

Variables CENTER RADIUS CORNER CORNERS : Z.

(** The two alpha tests of a state, and the adjusted arguments of an
    [ellipse], taken apart. *)
Ltac alpha_cases s :=
  destruct (rgba3 (Globals.fillColor s) >? 0);
  destruct (rgba3 (Globals.strokeColor s) >? 0).

Ltac open_stream c s :=
  destruct c; cbn [stream fills is_draw andb];
  unfold line_calls, point_calls, polygon_calls, ellipse_calls, sphere_calls;
  try match goal with
      | |- context [cprocessing.ellipse_switch ?a ?b ?d ?m ?x ?y ?w ?h] =>
        destruct (cprocessing.ellipse_switch a b d m x y w h) as [[[? ?] ?] ?]
      end;
  alpha_cases s.

(** X1.  Whenever a call of the unit returns, what it has sent to the
    backend rasterizes as: one fill pass if the call is a [triangle],
    [quad], [ellipse] or [sphere] and the fill alpha is positive, followed
    by one outline pass if the call is a draw and the stroke alpha is
    positive; nothing else, whatever the polygon mode on entry.  [line]
    and [point] never fill; the three configuration functions draw
    nothing. *)
Theorem draw_passes (c : api) (s s' : state) (polygon_mode : GLenum) :
  run (call CENTER RADIUS CORNER CORNERS c) s = inr (tt, s') ->
  exists l : list glcall,
    Globals.gl s' = Globals.gl s ++ l /\
    passes polygon_mode l =
      (if fills c && (rgba3 (Globals.fillColor s) >? 0) then [FillPass] else []) ++
      (if is_draw c && (rgba3 (Globals.strokeColor s) >? 0) then [OutlinePass] else []).
Proof.
  intros Hrun. apply call_stream in Hrun. destruct Hrun as [Hgl _].
  exists (stream CENTER RADIUS CORNERS c s). split; [exact Hgl |].
  clear Hgl. open_stream c s; reflexivity.
Qed.

(** X2.  No draw restores the polygon mode.  After a [triangle], [quad] or
    [sphere] the backend is left in GL_LINE if the stroke alpha is
    positive, else in GL_FILL if the fill alpha is positive; after an
    [ellipse] it is left in GL_FILL if the fill alpha is positive (its
    outline is a line loop and sets no mode); in every other case the mode
    is the one on entry. *)
Theorem draw_polygon_mode (c : api) (s s' : state) (polygon_mode : GLenum) :
  run (call CENTER RADIUS CORNER CORNERS c) s = inr (tt, s') ->
  exists l : list glcall,
    Globals.gl s' = Globals.gl s ++ l /\
    polygon_mode_after polygon_mode l =
      match c with
      | Triangle _ _ _ _ _ _ _ _ _ | Quad _ _ _ _ _ _ _ _ | Sphere _ =>
        if rgba3 (Globals.strokeColor s) >? 0 then GL_LINE
        else if rgba3 (Globals.fillColor s) >? 0 then GL_FILL
        else polygon_mode
      | Ellipse _ _ _ _ =>
        if rgba3 (Globals.fillColor s) >? 0 then GL_FILL else polygon_mode
      | _ => polygon_mode
      end.
Proof.
  intros Hrun. apply call_stream in Hrun. destruct Hrun as [Hgl _].
  exists (stream CENTER RADIUS CORNERS c s). split; [exact Hgl |].
  clear Hgl. open_stream c s; reflexivity.
Qed.




(** X4.  Every array draw a call of the unit issues reads an enabled
    vertex array bound to the array the function means (its local
    coordinates, the ellipse mesh, the sphere mesh); for [sphere] the normal
    array is enabled too and bound to the same sphere mesh.  On return the
    arrays the function enabled are disabled, whether or not they were
    enabled on entry; [line], [point] and the configuration functions leave
    the array state alone. *)
Theorem draw_arrays (c : api) (s s' : state) (a : arrays) :
  run (call CENTER RADIUS CORNER CORNERS c) s = inr (tt, s') ->
  exists l : list glcall,
    Globals.gl s' = Globals.gl s ++ l /\
    Forall (fun d =>
              vertex_array (snd d) = true /\
              vertex_pointer (snd d) =
                match c with
                | Triangle x0 y0 z0 x1 y1 z1 x2 y2 z2 =>
                  Some (addr_local [x0; y0; z0; x1; y1; z1; x2; y2; z2])
                | Quad x0 y0 x1 y1 x2 y2 x3 y3 =>
                  Some (addr_local [x0; y0; x1; y1; x2; y2; x3; y3])
                | Ellipse _ _ _ _ => Some (addr_ellipseVtx 0)
                | Sphere _ => Some (addr_sphereVtx 0)
                | _ => None
                end /\
              match c with
              | Sphere _ =>
                normal_array (snd d) = true /\
                normal_pointer (snd d) = Some (addr_sphereVtx 0)
              | _ => normal_array (snd d) = normal_array a
              end)
           (array_draws a l) /\
    match c with
    | Triangle _ _ _ _ _ _ _ _ _ | Quad _ _ _ _ _ _ _ _ | Ellipse _ _ _ _ =>
      vertex_array (arrays_after a l) = false /\
      normal_array (arrays_after a l) = normal_array a
    | Sphere _ =>
      vertex_array (arrays_after a l) = false /\
      normal_array (arrays_after a l) = false
    | _ => arrays_after a l = a
    end.
Proof.
  intros Hrun. apply call_stream in Hrun. destruct Hrun as [Hgl _].
  exists (stream CENTER RADIUS CORNERS c s). split; [exact Hgl |].
  clear Hgl. open_stream c s; cbn; repeat constructor.
Qed.

(** X5.  The capabilities [sphere] toggles.  Its fill draw is issued with
    polygon offset fill enabled and lighting as on entry; its outline draw
    is issued with lighting disabled.  On return lighting is as it was on
    entry and the attribute stack is unchanged, while polygon offset fill
    is disabled whenever the fill pass ran: it is turned off, not
    restored. *)
Theorem sphere_capabilities (radius : R) (s s' : state) (e : enables) (saved : list enables) :
  run (cprocessing.sphere radius) s = inr (tt, s') ->
  exists l : list glcall,
    Globals.gl s' = Globals.gl s ++ l /\
    map snd (drawn_under e saved l) =
      (if rgba3 (Globals.fillColor s) >? 0
       then [mkEnables (lighting e) true] else []) ++
      (if rgba3 (Globals.strokeColor s) >? 0
       then [mkEnables false
               (if rgba3 (Globals.fillColor s) >? 0 then false
                else polygon_offset_fill e)]
       else []) /\
    enables_after e saved l =
      (mkEnables (lighting e)
         (if rgba3 (Globals.fillColor s) >? 0 then false else polygon_offset_fill e),
       saved).
Proof.
  intros Hrun. apply sphere_returns in Hrun. subst s'.
  eexists. split; [reflexivity |].
  unfold sphere_calls. alpha_cases s; cbn; destruct e; split; reflexivity.
Qed.

End Backend.

(** ** More about the ellipse mesh *)

Lemma ellipse_mesh_length (n : Z) : length (ellipse_mesh n) = Z.to_nat n.
Proof. unfold ellipse_mesh. rewrite length_map. apply counter_values_length. Qed.

Lemma ellipse_mesh_nth (n i : Z) :
  0 <= i < n -> nth_error (ellipse_mesh n) (Z.to_nat i) = Some (ellipse_vertex n i).
Proof.
  intros Hi. unfold ellipse_mesh.
  rewrite nth_error_map, counter_values_nth by lia.
  cbn [option_map]. do 2 f_equal. lia.
Qed.

Lemma ellipse_vertex_0 (n : Z) : ellipse_vertex n 0 = mkPVector (1 / 2) 0 0.
Proof.
  unfold ellipse_vertex.
  replace (PI * 2 * 0 / IZR n)%R with 0%R by (unfold Rdiv; ring).
  rewrite cos_0, sin_0. apply PVector_eq; lra.
Qed.

Section EllipseMesh.

Variables CENTER RADIUS CORNER CORNERS : Z.

(** X6.  [ellipseDetail] returns for every n, zero included: the division
    by n is only reached inside the loop, where n is positive.  The mesh it
    leaves has n vertices (none for n = 0), the first of which, when there
    is one, is (1/2, 0, 0); and after [ellipseDetail 0] a following
    [ellipse] stops in the out-of-range branch. *)
Theorem ellipseDetail_any_n (n : Z) (s : state) :
  exists s' : state,
    run (cprocessing.ellipseDetail n) s = inr (tt, s') /\
    length (Globals.ellipseVtx s') = Z.to_nat n /\
    (1 <= n -> nth_error (Globals.ellipseVtx s') 0 = Some (mkPVector (1 / 2) 0 0)) /\
    (n = 0 ->
     forall x y width height : R,
       run (cprocessing.ellipse CENTER RADIUS CORNERS x y width height) s' =
         inl OutOfRange).
Proof.
  exists (Globals.set_ellipseVtx (ellipse_mesh n) s).
  split; [apply run_ellipseDetail |].
  cbn [Globals.ellipseVtx Globals.set_ellipseVtx].
  split; [apply ellipse_mesh_length |]. split.
  - intros Hn. rewrite <- ellipse_vertex_0 with (n := n).
    apply (ellipse_mesh_nth n 0). lia.
  - intros -> x y width height. rewrite run_ellipse. reflexivity.
Qed.

(** Only [ellipseDetail] writes the ellipse mesh. *)
Lemma calls_keep_ellipseVtx (cs : list api) (s s' : state) :
  forallb (fun c => negb (is_EllipseDetail c)) cs = true ->
  run (calls CENTER RADIUS CORNER CORNERS cs) s = inr (tt, s') ->
  Globals.ellipseVtx s' = Globals.ellipseVtx s.
Proof.
  revert s; induction cs as [| c cs IH]; intros s Hcs; cbn [calls].
  - rewrite run_ret. intros [= <-]. reflexivity.
  - cbn [forallb] in Hcs. apply andb_true_iff in Hcs. destruct Hcs as [Hc Hcs].
    rewrite run_bind.
    destruct (run (call CENTER RADIUS CORNER CORNERS c) s) as [e | [[] s1]] eqn:E;
      [discriminate |].
    intros Hrest. rewrite (IH s1 Hcs Hrest).
    apply call_returns in E.
    destruct c; try discriminate Hc;
      first [ destruct E as [? ->]; reflexivity | rewrite E; reflexivity ].
Qed.

Lemma ellipse_calls_arrays (fill stroke : color) (size : nat) (args : R * R * R * R)
      (mode : GLenum) (first count : Z) :
  In (glDrawArrays mode first count) (ellipse_calls fill stroke size args) ->
  first = 0 /\ count = wrap_int (Z.of_nat size).
Proof.
  unfold ellipse_calls. destruct args as [[[x y] w] h].
  destruct (rgba3 fill >? 0); destruct (rgba3 stroke >? 0); cbn [app In];
    intros H; repeat (destruct H as [H | H]; [try discriminate H |]);
    try contradiction; try (injection H as _ <- <-; split; reflexivity).
Qed.

(** X7.  After [ellipseDetail n] with 1 <= n <= INT_MAX, and until the
    next [ellipseDetail], every [ellipse] returns and every glDrawArrays it
    issues starts at vertex 0 and draws exactly n vertices: the whole mesh,
    nothing beyond it. *)
Theorem ellipse_draws_whole_mesh (n : Z) (cs : list api) (s s1 s2 : state)
        (x y width height : R) :
  1 <= n <= INT_MAX ->
  run (cprocessing.ellipseDetail n) s = inr (tt, s1) ->
  forallb (fun c => negb (is_EllipseDetail c)) cs = true ->
  run (calls CENTER RADIUS CORNER CORNERS cs) s1 = inr (tt, s2) ->
  exists l : list glcall,
    run (cprocessing.ellipse CENTER RADIUS CORNERS x y width height) s2 =
      inr (tt, issued l s2) /\
    Z.of_nat (length (Globals.ellipseVtx s2)) = n /\
    forall mode first count,
      In (glDrawArrays mode first count) l -> first = 0 /\ count = n.
Proof.
  unfold INT_MAX. intros Hn Hdetail Hcs Hrun.
  rewrite run_ellipseDetail in Hdetail. injection Hdetail as <-.
  pose proof (calls_keep_ellipseVtx cs _ s2 Hcs Hrun) as Hmesh.
  cbn [Globals.ellipseVtx Globals.set_ellipseVtx] in Hmesh.
  assert (Hlen : Z.of_nat (length (Globals.ellipseVtx s2)) = n)
    by (rewrite Hmesh, ellipse_mesh_length; lia).
  eexists. split; [| split; [exact Hlen |]].
  - apply run_ellipse_returns. intros E. rewrite E in Hlen. cbn in Hlen. lia.
  - intros mode first count Hin. apply ellipse_calls_arrays in Hin.
    destruct Hin as [-> ->]. split; [reflexivity |].
    rewrite Hlen. apply wrap_int_id. unfold is_int, INT_MIN, INT_MAX. lia.
Qed.

End EllipseMesh.

Lemma dist2_on_circle (a b : R) :
  dist2 (mkPVector (cos a / 2) (sin a / 2) 0) (mkPVector (cos b / 2) (sin b / 2) 0) =
  ((1 - cos (a - b)) / 2)%R.
Proof.
  unfold dist2; cbn [vx vy vz]. rewrite cos_minus.
  replace ((cos a / 2 - cos b / 2) * (cos a / 2 - cos b / 2) +
           (sin a / 2 - sin b / 2) * (sin a / 2 - sin b / 2) + (0 - 0) * (0 - 0))%R
    with ((((sin a)² + (cos a)²) + ((sin b)² + (cos b)²)
           - 2 * (cos a * cos b + sin a * sin b)) / 4)%R
    by (unfold Rsqr; field).
  rewrite !sin2_cos2. field.
Qed.

(** X8.  The mesh [ellipseDetail n] builds is a regular polygon: for
    n >= 1, every vertex and its successor, the successor of the last
    being the first (the mesh is drawn as a closed loop), are at the same
    distance, whose square is (1 - cos (2*pi/n)) / 2. *)
Theorem ellipseDetail_regular (n : Z) (s : state) :
  1 <= n ->
  exists s' : state,
    run (cprocessing.ellipseDetail n) s = inr (tt, s') /\
    forall i : Z, 0 <= i < n ->
      exists a b : PVector,
        nth_error (Globals.ellipseVtx s') (Z.to_nat i) = Some a /\
        nth_error (Globals.ellipseVtx s') (Z.to_nat ((i + 1) mod n)) = Some b /\
        dist2 a b = ((1 - cos (2 * PI / IZR n)) / 2)%R.
Proof.
  intros Hn. exists (Globals.set_ellipseVtx (ellipse_mesh n) s).
  split; [apply run_ellipseDetail |].
  cbn [Globals.ellipseVtx Globals.set_ellipseVtx].
  intros i Hi.
  assert (Hnz : IZR n <> 0%R) by (apply not_0_IZR; lia).
  exists (ellipse_vertex n i), (ellipse_vertex n ((i + 1) mod n)).
  split; [apply ellipse_mesh_nth; exact Hi |].
  split; [apply ellipse_mesh_nth; apply Z.mod_pos_bound; lia |].
  unfold ellipse_vertex. rewrite dist2_on_circle. do 2 f_equal.
  destruct (Z.eq_dec (i + 1) n) as [E | E].
  - rewrite E, Z.mod_same by lia.
    replace (PI * 2 * IZR i / IZR n - PI * 2 * 0 / IZR n)%R
      with (2 * PI - 2 * PI / IZR n)%R.
    + rewrite cos_minus, cos_2PI, sin_2PI. ring.
    + replace i with (n - 1) by lia. rewrite minus_IZR. field. exact Hnz.
  - rewrite Z.mod_small by lia.
    replace (PI * 2 * IZR i / IZR n - PI * 2 * IZR (i + 1) / IZR n)%R
      with (- (2 * PI / IZR n))%R.
    + apply cos_neg.
    + rewrite plus_IZR. field. exact Hnz.
Qed.

(** ** More about ellipse *)

Section EllipseModes.

Variables CENTER RADIUS CORNER CORNERS : Z.
Hypothesis modes : distinct_modes CENTER RADIUS CORNER CORNERS.

(** X9.  From [ellipseDetail] to the screen.  After [ellipseDetail n],
    n >= 1, with the mode still CENTER, [ellipse x y width height] with
    non-negative width and height issues its draws under a transform that
    sends every vertex of the mesh into the rectangle of centre (x, y),
    width [width] and height [height], and the first vertex onto the
    middle of its right side. *)
Theorem ellipse_drawn_within_box (n : Z) (x y width height : R) (s s1 : state) :
  1 <= n -> Globals.ellipseMode s = CENTER ->
  (0 <= width)%R -> (0 <= height)%R ->
  run (cprocessing.ellipseDetail n) s = inr (tt, s1) ->
  exists l : list glcall,
    run (cprocessing.ellipse CENTER RADIUS CORNERS x y width height) s1 =
      inr (tt, issued l s1) /\
    Forall (fun d =>
              (forall v : PVector, In v (Globals.ellipseVtx s1) ->
                 (x - width / 2 <= vx (snd d v) <= x + width / 2)%R /\
                 (y - height / 2 <= vy (snd d v) <= y + height / 2)%R) /\
              exists v0 : PVector,
                nth_error (Globals.ellipseVtx s1) 0 = Some v0 /\
                snd d v0 = mkPVector (x + width / 2) y 0)
           (draws l).
Proof.
  intros Hn Hmode Hw Hh Hdetail.
  rewrite run_ellipseDetail in Hdetail. injection Hdetail as <-.
  assert (Hv0 : nth_error (ellipse_mesh n) 0 = Some (mkPVector (1 / 2) 0 0))
    by (rewrite <- ellipse_vertex_0 with (n := n); apply (ellipse_mesh_nth n 0); lia).
  eexists. split.
  - apply run_ellipse_returns. cbn [Globals.ellipseVtx Globals.set_ellipseVtx].
    intros E. rewrite E in Hv0. discriminate.
  - cbn [Globals.ellipseVtx Globals.set_ellipseVtx Globals.ellipseMode
         Globals.fillColor Globals.strokeColor].
    rewrite Hmode. unfold cprocessing.ellipse_switch. rewrite Z.eqb_refl.
    eapply Forall_impl;
      [| apply (draws_ellipse_calls (Globals.fillColor s) (Globals.strokeColor s)
                  (length (ellipse_mesh n)) (x - width / 2) (y - height / 2)
                  width height)].
    intros d Hd; cbv beta in Hd.
    assert (H : places (snd d) x y width height)
      by (revert Hd; apply places_ext; lra).
    split.
    + intros v Hin. apply ellipse_mesh_in_box in Hin. destruct Hin as (Hx & Hy & _).
      apply (places_in_box _ _ _ _ _ v H Hw Hh Hx Hy).
    + exists (mkPVector (1 / 2) 0 0). split; [exact Hv0 |].
      rewrite H. cbn [vx vy vz]. apply PVector_eq; lra.
Qed.

Lemma ellipse_calls_ext (fill stroke : color) (size : nat) (x y w h x' y' w' h' : R) :
  x = x' -> y = y' -> w = w' -> h = h' ->
  ellipse_calls fill stroke size (x, y, w, h) =
  ellipse_calls fill stroke size (x', y', w', h').
Proof. intros -> -> -> ->; reflexivity. Qed.

(** X10.  The four modes are four ways of writing the same ellipse.  With
    a non-empty mesh, and the rest of the state the same, [ellipse] sends
    the backend the same calls
    - in mode RADIUS for (x, y, w, h) as in mode CENTER for (x, y, 2w, 2h);
    - in mode CORNERS for (x, y, x2, y2) as in mode CORNER for
      (x, y, x2 - x, y2 - y);
    - in mode CORNER for (x, y, w, h) as in mode CENTER for
      (x + w/2, y + h/2, w, h). *)
Theorem ellipse_modes_agree (x y a b : R) (s : state) :
  Globals.ellipseVtx s <> [] ->
  (exists l : list glcall,
     run (cprocessing.ellipse CENTER RADIUS CORNERS x y a b)
         (Globals.set_ellipseMode RADIUS s) =
       inr (tt, issued l (Globals.set_ellipseMode RADIUS s)) /\
     run (cprocessing.ellipse CENTER RADIUS CORNERS x y (2 * a) (2 * b))
         (Globals.set_ellipseMode CENTER s) =
       inr (tt, issued l (Globals.set_ellipseMode CENTER s))) /\
  (exists l : list glcall,
     run (cprocessing.ellipse CENTER RADIUS CORNERS x y a b)
         (Globals.set_ellipseMode CORNERS s) =
       inr (tt, issued l (Globals.set_ellipseMode CORNERS s)) /\
     run (cprocessing.ellipse CENTER RADIUS CORNERS x y (a - x) (b - y))
         (Globals.set_ellipseMode CORNER s) =
       inr (tt, issued l (Globals.set_ellipseMode CORNER s))) /\
  (exists l : list glcall,
     run (cprocessing.ellipse CENTER RADIUS CORNERS x y a b)
         (Globals.set_ellipseMode CORNER s) =
       inr (tt, issued l (Globals.set_ellipseMode CORNER s)) /\
     run (cprocessing.ellipse CENTER RADIUS CORNERS (x + a / 2) (y + b / 2) a b)
         (Globals.set_ellipseMode CENTER s) =
       inr (tt, issued l (Globals.set_ellipseMode CENTER s))).
Proof.
  intros Hmesh.
  pose proof (switch_CENTER CENTER RADIUS CORNERS) as HC.
  pose proof (switch_RADIUS CENTER RADIUS CORNER CORNERS modes) as HR.
  pose proof (switch_CORNERS CENTER RADIUS CORNER CORNERS modes) as HS.
  pose proof (switch_CORNER CENTER RADIUS CORNER CORNERS modes) as HK.
  split; [| split]; eexists; split;
    try (rewrite run_ellipse_returns by exact Hmesh;
         cbn [Globals.ellipseMode Globals.set_ellipseMode Globals.ellipseVtx
              Globals.fillColor Globals.strokeColor];
         rewrite ?HC, ?HR, ?HS, ?HK).
  - reflexivity.
  - do 3 f_equal. apply ellipse_calls_ext; lra.
  - reflexivity.
  - do 3 f_equal.
  - reflexivity.
  - do 3 f_equal. apply ellipse_calls_ext; lra.
Qed.

End EllipseModes.

(** ** More about the sphere mesh *)

Lemma sphere_vertices_empty (ur vr : Z) :
  ur <= 0 \/ vr <= 0 -> sphere_vertices ur vr = [].
Proof.
  intros [H | H]; unfold sphere_vertices.
  - apply flat_map_empty_rows. intros a.
    replace (Z.to_nat ur) with 0%nat by lia. reflexivity.
  - replace (Z.to_nat vr) with 0%nat by lia. reflexivity.
Qed.

Lemma sphere_indices_empty (ur vr : Z) :
  is_int vr -> INT_MIN < vr -> ur <= 0 \/ vr <= 1 -> sphere_indices ur vr = [].
Proof.
  unfold is_int, INT_MIN, INT_MAX. intros Hvr Hmin H. unfold sphere_indices.
  rewrite wrap_int_id by (unfold is_int, INT_MIN, INT_MAX; lia).
  destruct H as [H | H].
  - apply flat_map_empty_rows. intros a.
    replace (Z.to_nat ur) with 0%nat by lia. reflexivity.
  - replace (Z.to_nat (vr - 1)) with 0%nat by lia. reflexivity.
Qed.

(** X11.  Degenerate detail.  For [int] arguments with vres <= 0 (and
    above INT_MIN), or with vres >= 2 and ures <= 0, [sphereDetail] returns
    without complaint: it stores the two values and leaves both arrays
    empty, so that a following [sphere] stops in the out-of-range
    branch. *)
Theorem sphereDetail_degenerate (ur vr : Z) (s : state) :
  is_int ur -> is_int vr -> INT_MIN < vr ->
  vr <= 0 \/ (2 <= vr /\ ur <= 0) ->
  exists s' : state,
    run (cprocessing.sphereDetail ur vr) s = inr (tt, s') /\
    Globals.ures s' = ur /\ Globals.vres s' = vr /\
    Globals.sphereVtx s' = [] /\ Globals.sphereIdx s' = [] /\
    forall radius : R, run (cprocessing.sphere radius) s' = inl OutOfRange.
Proof.
  intros Hur Hvr Hmin Hdeg. exists (after_sphereDetail ur vr s).
  destruct (after_sphereDetail_fields ur vr s) as (Eu & Ev & Evtx & Eidx & _).
  assert (Hv : sphere_vertices ur vr = []) by (apply sphere_vertices_empty; lia).
  assert (Hi : sphere_indices ur vr = [])
    by (apply sphere_indices_empty; [exact Hvr | exact Hmin | lia]).
  split.
  { rewrite run_sphereDetail. destruct (divides_by_zero ur vr) eqn:E; [| reflexivity].
    apply (divides_by_zero_spec ur vr Hur Hvr) in E. lia. }
  rewrite Eu, Ev, Evtx, Eidx, Hv, Hi. repeat split.
  intros radius. rewrite run_sphere_cases, Evtx, Hv. reflexivity.
Qed.


(** X13.  The sphere mesh is closed.  For ures, vres >= 2, in the mesh
    [sphereDetail] leaves, every ring starts at the pole (0, 1, 0) and ends
    at the pole (0, -1, 0), and the last ring is the first one again
    (theta has gone the full revolution). *)
Theorem sphereDetail_closed (ur vr : Z) (s : state) :
  is_int ur -> is_int vr -> 2 <= ur -> 2 <= vr ->
  exists s' : state,
    run (cprocessing.sphereDetail ur vr) s = inr (tt, s') /\
    (forall itheta : Z, 0 <= itheta < vr ->
       nth_error (Globals.sphereVtx s') (Z.to_nat (itheta * ur + 0)) =
         Some (mkPVector 0 1 0) /\
       nth_error (Globals.sphereVtx s') (Z.to_nat (itheta * ur + (ur - 1))) =
         Some (mkPVector 0 (-1) 0)) /\
    (forall iphi : Z, 0 <= iphi < ur ->
       exists v : PVector,
         nth_error (Globals.sphereVtx s') (Z.to_nat (0 * ur + iphi)) = Some v /\
         nth_error (Globals.sphereVtx s') (Z.to_nat ((vr - 1) * ur + iphi)) = Some v).
Proof.
  intros Hur Hvr Hu Hv. exists (after_sphereDetail ur vr s).
  split; [apply sphereDetail_returns; assumption |].
  destruct (after_sphereDetail_fields ur vr s) as (_ & _ & -> & _).
  assert (Wu : wrap_int (ur - 1) = ur - 1)
    by (apply wrap_int_id; unfold is_int, INT_MIN, INT_MAX in *; lia).
  assert (Wv : wrap_int (vr - 1) = vr - 1)
    by (apply wrap_int_id; unfold is_int, INT_MIN, INT_MAX in *; lia).
  assert (Nu : IZR (ur - 1) <> 0%R) by (apply not_0_IZR; lia).
  assert (Nv : IZR (vr - 1) <> 0%R) by (apply not_0_IZR; lia).
  split.
  - intros itheta Ht. rewrite !sphere_vertices_nth by lia.
    unfold sphere_vertex. rewrite Wu. split; f_equal.
    + replace (PI / IZR (ur - 1) * 0)%R with 0%R by ring.
      rewrite sin_0, cos_0. apply PVector_eq; ring.
    + replace (PI / IZR (ur - 1) * IZR (ur - 1))%R with PI by (field; exact Nu).
      rewrite sin_PI, cos_PI. apply PVector_eq; ring.
  - intros iphi Hp. exists (sphere_vertex ur vr 0 iphi).
    rewrite !sphere_vertices_nth by lia. split; [reflexivity |].
    f_equal. unfold sphere_vertex, TWO_PI. rewrite Wv.
    replace (2 * PI / IZR (vr - 1) * IZR (vr - 1))%R with (2 * PI)%R by (field; exact Nv).
    replace (2 * PI / IZR (vr - 1) * 0)%R with 0%R by ring.
    rewrite cos_2PI, sin_2PI, cos_0, sin_0. reflexivity.
Qed.

(** X14.  The layout of the index array.  For ures, vres >= 2 with
    ures*vres <= 2^32, the entries at positions 2k and 2k+1, where
    k = icol*ures + irow, are the vertex of ring [icol] at row [irow] and
    the vertex of the next ring at the same row: icol*ures + irow and
    (icol+1)*ures + irow. *)
Theorem sphereDetail_index_pairs (ur vr : Z) (s : state) :
  is_int ur -> is_int vr -> 2 <= ur -> 2 <= vr -> ur * vr <= 4294967296 ->
  exists s' : state,
    run (cprocessing.sphereDetail ur vr) s = inr (tt, s') /\
    forall icol irow : Z, 0 <= icol < vr - 1 -> 0 <= irow < ur ->
      nth_error (Globals.sphereIdx s') (Z.to_nat (2 * (icol * ur + irow))) =
        Some (icol * ur + irow) /\
      nth_error (Globals.sphereIdx s') (Z.to_nat (2 * (icol * ur + irow) + 1)) =
        Some ((icol + 1) * ur + irow).
Proof.
  intros Hur Hvr Hu Hv Hmax. exists (after_sphereDetail ur vr s).
  split; [apply sphereDetail_returns; assumption |].
  destruct (after_sphereDetail_fields ur vr s) as (_ & _ & _ & -> & _).
  intros icol irow Hc Hr.
  assert (Wv : wrap_int (vr - 1) = vr - 1)
    by (apply wrap_int_id; unfold is_int, INT_MIN, INT_MAX in *; lia).
  assert (Hrow : forall k : nat, (k < 2)%nat ->
            nth_error (sphere_indices ur vr)
                      (Z.to_nat icol * (Z.to_nat ur * 2) + (Z.to_nat irow * 2 + k)) =
            nth_error (sphere_index_pair ur icol irow) k).
  { intros k Hk. unfold sphere_indices. rewrite Wv.
    rewrite nth_error_flat_map_rows with (m := (Z.to_nat ur * 2)%nat) (a := icol).
    - apply nth_error_flat_map_rows with (m := 2%nat); [reflexivity | | exact Hk].
      rewrite counter_values_nth by lia. f_equal; lia.
    - intros a _. rewrite length_flat_map_rows with (m := 2%nat) by reflexivity.
      rewrite counter_values_length. reflexivity.
    - rewrite counter_values_nth by lia. f_equal; lia.
    - nia. }
  assert (S1 : to_unsigned (icol * ur + irow) = icol * ur + irow)
    by (unfold to_unsigned; apply Z.mod_small; nia).
  assert (S2 : to_unsigned ((icol + 1) * ur + irow) = (icol + 1) * ur + irow)
    by (unfold to_unsigned; apply Z.mod_small; nia).
  split.
  - replace (Z.to_nat (2 * (icol * ur + irow)))
      with (Z.to_nat icol * (Z.to_nat ur * 2) + (Z.to_nat irow * 2 + 0))%nat by nia.
    rewrite Hrow by lia. cbn [sphere_index_pair nth_error].
    rewrite to_unsigned_wrap_add, S1. reflexivity.
  - replace (Z.to_nat (2 * (icol * ur + irow) + 1))
      with (Z.to_nat icol * (Z.to_nat ur * 2) + (Z.to_nat irow * 2 + 1))%nat by nia.
    rewrite Hrow by lia. cbn [sphere_index_pair nth_error].
    rewrite to_unsigned_wrap_add.
    rewrite (wrap_int_id (icol + 1)) by (unfold is_int, INT_MIN, INT_MAX in *; lia).
    rewrite S2. reflexivity.
Qed.

(** ** Invariants of the reachable states *)

Lemma ellipse_mesh_on_circle (n : Z) (v : PVector) :
  In v (ellipse_mesh n) -> norm v = (1 / 2)%R /\ vz v = 0%R.
Proof.
  unfold ellipse_mesh. rewrite in_map_iff. intros (i & <- & _).
  pose proof (ellipse_vertex_polar n i) as Hp.
  split; [| reflexivity].
  apply norm_polar with (ang := (2 * PI * IZR i / IZR n)%R); [lra | exact Hp].
Qed.

Section Invariants.

Variables CENTER RADIUS CORNER CORNERS : Z.

(** X15.  In every state the program can reach, the stored ellipse mode
    is one of CENTER, RADIUS, CORNER, CORNERS: the [switch] of [ellipse],
    which has no [default], never meets a value it does not know. *)
Theorem reachable_mode_valid (s : state) :
  reachable CENTER RADIUS CORNER CORNERS s ->
  valid_mode CENTER RADIUS CORNER CORNERS (Globals.ellipseMode s).
Proof.
  induction 1 as [fill stroke | c s s' Hs IH Hty Hrun | fill stroke s Hs IH | l s Hs IH];
    cbn [cprocessing.initial issued Globals.set_gl Globals.ellipseMode];
    try assumption.
  - left; reflexivity.
  - apply call_returns in Hrun.
    destruct c;
      first [ rewrite Hrun; exact IH
            | destruct Hrun as [l ->]; exact IH
            | destruct Hrun as [Hvalid ->]; first [exact Hvalid | exact IH] ].
Qed.

(** X16.  In every state the program can reach, every vertex of the
    ellipse mesh lies in the plane z = 0 at distance 1/2 from the origin:
    only [ellipseDetail] writes the mesh, and it puts every vertex there. *)
Theorem reachable_ellipse_mesh (s : state) :
  reachable CENTER RADIUS CORNER CORNERS s ->
  forall v : PVector, In v (Globals.ellipseVtx s) ->
    norm v = (1 / 2)%R /\ vz v = 0%R.
Proof.
  induction 1 as [fill stroke | c s s' Hs IH Hty Hrun | fill stroke s Hs IH | l s Hs IH];
    cbn [cprocessing.initial issued Globals.set_gl Globals.ellipseVtx];
    try assumption.
  - intros v [].
  - apply call_returns in Hrun.
    destruct c;
      [ destruct Hrun as [l ->]; assumption ..
      | rewrite Hrun
      | destruct Hrun as [_ ->]; assumption
      | destruct Hrun as [l ->]; assumption
      | destruct Hrun as [_ ->]; exact IH
      | destruct Hrun as [l ->]; assumption ].
    intros v Hin. apply (ellipse_mesh_on_circle n v Hin).
Qed.

(** X17.  Configuration and drawing are kept apart.  No call of the unit
    changes the fill or the stroke colour.  [ellipseDetail], [ellipseMode]
    and [sphereDetail] send nothing to the backend.  The six draws change
    none of the statics: what the backend had received is still there, in
    order, followed by what the draw sent. *)
Theorem configuration_apart_from_drawing (c : api) (s s' : state) :
  run (call CENTER RADIUS CORNER CORNERS c) s = inr (tt, s') ->
  Globals.fillColor s' = Globals.fillColor s /\
  Globals.strokeColor s' = Globals.strokeColor s /\
  (is_draw c = false -> Globals.gl s' = Globals.gl s) /\
  (is_draw c = true ->
   Globals.ellipseMode s' = Globals.ellipseMode s /\
   Globals.ellipseVtx s' = Globals.ellipseVtx s /\
   Globals.ures s' = Globals.ures s /\ Globals.vres s' = Globals.vres s /\
   Globals.sphereVtx s' = Globals.sphereVtx s /\
   Globals.sphereIdx s' = Globals.sphereIdx s /\
   exists l : list glcall, Globals.gl s' = Globals.gl s ++ l).
Proof.
  intros Hrun. apply call_returns in Hrun.
  destruct c; cbn [is_draw];
    first [ rewrite Hrun; repeat split; discriminate
          | destruct Hrun as [_ ->]; repeat split; discriminate
          | destruct Hrun as [l ->];
            repeat split; try discriminate; exists l; reflexivity ].
Qed.

End Invariants.

(** * The further properties on concrete calls

    As before the mode constants take Processing's values (CENTER = 3,
    RADIUS = 2, CORNERS = 1, CORNER = 0). *)

(** X1 on a triangle drawn with a white fill and a black stroke. *)
Lemma draw_passes_witness :
  exists (s' : state) (l : list glcall),
    run (cprocessing.triangle 0 0 0 1 0 0 0 1 0) (cprocessing.initial 3 white black) =
      inr (tt, s') /\
    Globals.gl s' = Globals.gl (cprocessing.initial 3 white black) ++ l /\
    passes GL_LINE l = [FillPass; OutlinePass].
Proof.
  pose proof (run_triangle 0 0 0 1 0 0 0 1 0 (cprocessing.initial 3 white black)) as Hrun.
  destruct (draw_passes 3 2 0 1 (Triangle 0 0 0 1 0 0 0 1 0) _ _ GL_LINE Hrun)
    as (l & Hgl & Hp).
  eexists. exists l. split; [exact Hrun |]. split; [exact Hgl | exact Hp].
Defined.

(** X2 on the same triangle: the backend is left in GL_LINE. *)
Lemma draw_polygon_mode_witness :
  exists (s' : state) (l : list glcall),
    run (cprocessing.triangle 0 0 0 1 0 0 0 1 0) (cprocessing.initial 3 white black) =
      inr (tt, s') /\
    Globals.gl s' = Globals.gl (cprocessing.initial 3 white black) ++ l /\
    polygon_mode_after GL_FILL l = GL_LINE.
Proof.
  pose proof (run_triangle 0 0 0 1 0 0 0 1 0 (cprocessing.initial 3 white black)) as Hrun.
  destruct (draw_polygon_mode 3 2 0 1 (Triangle 0 0 0 1 0 0 0 1 0) _ _ GL_FILL Hrun)
    as (l & Hgl & Hp).
  eexists. exists l. split; [exact Hrun |]. split; [exact Hgl | exact Hp].
Defined.


(** X4 on [sphere(2)] in a configured state, the arrays disabled on
    entry. *)
Lemma draw_arrays_witness :
  exists l : list glcall,
    Forall (fun d => vertex_array (snd d) = true /\
                     vertex_pointer (snd d) = Some (addr_sphereVtx 0) /\
                     normal_array (snd d) = true /\
                     normal_pointer (snd d) = Some (addr_sphereVtx 0))
           (array_draws (mkArrays false false None None) l) /\
    vertex_array (arrays_after (mkArrays false false None None) l) = false /\
    normal_array (arrays_after (mkArrays false false None None) l) = false.
Proof.
  pose proof (run_sphere 2 (configured 3 white black)
                ltac:(discriminate) ltac:(discriminate)) as Hrun.
  destruct (draw_arrays 3 2 0 1 (Sphere 2) _ _ (mkArrays false false None None) Hrun)
    as (l & _ & Hdraws & Hafter).
  exists l. split; [exact Hdraws | exact Hafter].
Defined.

(** X5 on [sphere(2)] in a configured state, lighting on and polygon
    offset fill on. *)
Lemma sphere_capabilities_witness :
  exists l : list glcall,
    map snd (drawn_under (mkEnables true true) [] l) =
      [mkEnables true true; mkEnables false false] /\
    enables_after (mkEnables true true) [] l = (mkEnables true false, []).
Proof.
  pose proof (run_sphere 2 (configured 3 white black)
                ltac:(discriminate) ltac:(discriminate)) as Hrun.
  destruct (sphere_capabilities 2 _ _ (mkEnables true true) [] Hrun)
    as (l & _ & Hdraws & Hafter).
  exists l. split; [exact Hdraws | exact Hafter].
Defined.

(** X6 on [ellipseDetail(0)]. *)
Lemma ellipseDetail_any_n_witness :
  exists s' : state,
    run (cprocessing.ellipseDetail 0) (configured 3 white black) = inr (tt, s') /\
    length (Globals.ellipseVtx s') = 0%nat /\
    run (cprocessing.ellipse 3 2 1 10 10 4 4) s' = inl OutOfRange.
Proof.
  destruct (ellipseDetail_any_n 3 2 1 0 (configured 3 white black))
    as (s' & Hrun & Hlen & _ & Hfail).
  exists s'. split; [exact Hrun |]. split; [exact Hlen |].
  apply Hfail. reflexivity.
Defined.

(** X7 on [ellipseDetail(30); sphereDetail(30,30); ellipse(10,10,4,4)]. *)
Lemma ellipse_draws_whole_mesh_witness :
  exists (s2 : state) (l : list glcall),
    run (cprocessing.ellipse 3 2 1 10 10 4 4) s2 = inr (tt, issued l s2) /\
    forall mode first count,
      In (glDrawArrays mode first count) l -> first = 0 /\ count = 30.
Proof.
  destruct (ellipse_draws_whole_mesh 3 2 0 1 30 [SphereDetail 30 30]
              (cprocessing.initial 3 white black)
              (Globals.set_ellipseVtx (ellipse_mesh 30) (cprocessing.initial 3 white black))
              (after_sphereDetail 30 30
                 (Globals.set_ellipseVtx (ellipse_mesh 30)
                    (cprocessing.initial 3 white black)))
              10 10 4 4)
    as (l & Hrun & _ & Hcount).
  - unfold INT_MAX. lia.
  - apply run_ellipseDetail.
  - reflexivity.
  - cbn [calls call]. rewrite run_bind, sphereDetail_returns;
      [apply run_ret | unfold is_int, INT_MIN, INT_MAX; lia .. | lia | lia].
  - eexists. exists l. split; [exact Hrun | exact Hcount].
Defined.

(** X8 on [ellipseDetail(6)]: the closing side, from vertex 5 to vertex 0. *)
Lemma ellipseDetail_regular_witness :
  exists s' : state,
    run (cprocessing.ellipseDetail 6) (cprocessing.initial 3 white black) = inr (tt, s') /\
    exists a b : PVector,
      nth_error (Globals.ellipseVtx s') 5 = Some a /\
      nth_error (Globals.ellipseVtx s') 0 = Some b /\
      dist2 a b = ((1 - cos (2 * PI / 6)) / 2)%R.
Proof.
  destruct (ellipseDetail_regular 6 (cprocessing.initial 3 white black) ltac:(lia))
    as (s' & Hrun & Hside).
  exists s'. split; [exact Hrun |]. apply (Hside 5). lia.
Defined.

(** X9 on [ellipseDetail(30); ellipse(10,10,4,4)] in mode CENTER. *)
Lemma ellipse_drawn_within_box_witness :
  exists (s1 : state) (l : list glcall),
    run (cprocessing.ellipseDetail 30) (cprocessing.initial 3 white black) = inr (tt, s1) /\
    run (cprocessing.ellipse 3 2 1 10 10 4 4) s1 = inr (tt, issued l s1) /\
    Forall (fun d =>
              forall v : PVector, In v (Globals.ellipseVtx s1) ->
                (10 - 4 / 2 <= vx (snd d v) <= 10 + 4 / 2)%R /\
                (10 - 4 / 2 <= vy (snd d v) <= 10 + 4 / 2)%R)
           (draws l).
Proof.
  pose proof (run_ellipseDetail 30 (cprocessing.initial 3 white black)) as Hdetail.
  destruct (ellipse_drawn_within_box 3 2 1 30 10 10 4 4
              (cprocessing.initial 3 white black) _ ltac:(lia) eq_refl
              ltac:(lra) ltac:(lra) Hdetail)
    as (l & Hrun & Hbox).
  eexists. exists l. split; [exact Hdetail |]. split; [exact Hrun |].
  eapply Forall_impl; [| exact Hbox]. intros d [H _]. exact H.
Defined.

(** X10 on radii (2, 3) around (10, 10). *)
Lemma ellipse_modes_agree_witness :
  exists l : list glcall,
    run (cprocessing.ellipse 3 2 1 10 10 2 3)
        (Globals.set_ellipseMode 2 (configured 3 white black)) =
      inr (tt, issued l (Globals.set_ellipseMode 2 (configured 3 white black))) /\
    run (cprocessing.ellipse 3 2 1 10 10 (2 * 2) (2 * 3))
        (Globals.set_ellipseMode 3 (configured 3 white black)) =
      inr (tt, issued l (Globals.set_ellipseMode 3 (configured 3 white black))).
Proof.
  destruct (ellipse_modes_agree 3 2 0 1 ltac:(unfold distinct_modes; lia) 10 10 2 3
              (configured 3 white black) ltac:(discriminate))
    as (H & _).
  exact H.
Defined.

(** X11 on [sphereDetail(30,0)]. *)
Lemma sphereDetail_degenerate_witness :
  exists s' : state,
    run (cprocessing.sphereDetail 30 0) (configured 3 white black) = inr (tt, s') /\
    Globals.sphereVtx s' = [] /\ Globals.sphereIdx s' = [] /\
    run (cprocessing.sphere 2) s' = inl OutOfRange.
Proof.
  destruct (sphereDetail_degenerate 30 0 (configured 3 white black))
    as (s' & Hrun & _ & _ & Hv & Hi & Hfail);
    try (unfold is_int, INT_MIN, INT_MAX; lia).
  exists s'. repeat split; try assumption. apply Hfail.
Defined.


(** X13 on [sphereDetail(3,4)]: the two poles of the first ring. *)
Lemma sphereDetail_closed_witness :
  exists s' : state,
    run (cprocessing.sphereDetail 3 4) (cprocessing.initial 3 white black) = inr (tt, s') /\
    nth_error (Globals.sphereVtx s') (Z.to_nat (0 * 3 + 0)) = Some (mkPVector 0 1 0) /\
    nth_error (Globals.sphereVtx s') (Z.to_nat (0 * 3 + (3 - 1))) = Some (mkPVector 0 (-1) 0).
Proof.
  destruct (sphereDetail_closed 3 4 (cprocessing.initial 3 white black))
    as (s' & Hrun & Hpoles & _);
    try (unfold is_int, INT_MIN, INT_MAX; lia).
  exists s'. split; [exact Hrun |]. apply (Hpoles 0). lia.
Defined.

(** X14 on [sphereDetail(3,4)], ring 1, row 1: positions 8 and 9. *)
Lemma sphereDetail_index_pairs_witness :
  exists s' : state,
    run (cprocessing.sphereDetail 3 4) (cprocessing.initial 3 white black) = inr (tt, s') /\
    nth_error (Globals.sphereIdx s') (Z.to_nat (2 * (1 * 3 + 1))) = Some (1 * 3 + 1) /\
    nth_error (Globals.sphereIdx s') (Z.to_nat (2 * (1 * 3 + 1) + 1)) = Some ((1 + 1) * 3 + 1).
Proof.
  destruct (sphereDetail_index_pairs 3 4 (cprocessing.initial 3 white black))
    as (s' & Hrun & Hpairs);
    try (unfold is_int, INT_MIN, INT_MAX; lia).
  exists s'. split; [exact Hrun |]. apply (Hpairs 1 1); lia.
Defined.

(** X15 after [ellipseMode(RADIUS)]. *)
Lemma reachable_mode_valid_witness :
  valid_mode 3 2 0 1
    (Globals.ellipseMode (Globals.set_ellipseMode 2 (cprocessing.initial 3 white black))).
Proof.
  apply reachable_mode_valid.
  apply (reachable_call 3 2 0 1 (EllipseMode 2) (cprocessing.initial 3 white black)).
  - apply reachable_initial.
  - cbn [well_typed]. unfold is_unsigned, UINT_MAX. lia.
  - cbn [call]. rewrite run_ellipseMode. reflexivity.
Defined.

(** X16 after [ellipseDetail(30)], on the first vertex of the mesh. *)
Lemma reachable_ellipse_mesh_witness :
  exists v : PVector,
    nth_error (Globals.ellipseVtx
                 (Globals.set_ellipseVtx (ellipse_mesh 30)
                    (cprocessing.initial 3 white black))) 0 = Some v /\
    norm v = (1 / 2)%R /\ vz v = 0%R.
Proof.
  pose proof (ellipse_mesh_nth 30 0 ltac:(lia)) as Hnth.
  exists (ellipse_vertex 30 0). split; [exact Hnth |].
  apply (reachable_ellipse_mesh 3 2 0 1
           (Globals.set_ellipseVtx (ellipse_mesh 30) (cprocessing.initial 3 white black))).
  - apply (reachable_call 3 2 0 1 (EllipseDetail 30) (cprocessing.initial 3 white black)).
    + apply reachable_initial.
    + cbn [well_typed]. unfold is_unsigned, UINT_MAX. lia.
    + apply run_ellipseDetail.
  - apply (nth_error_In _ _ Hnth).
Defined.

(** X17 on [sphere(2)] in a configured state. *)
Lemma configuration_apart_from_drawing_witness :
  exists s' : state,
    run (cprocessing.sphere 2) (configured 3 white black) = inr (tt, s') /\
    Globals.fillColor s' = Globals.fillColor (configured 3 white black) /\
    Globals.sphereVtx s' = Globals.sphereVtx (configured 3 white black).
Proof.
  pose proof (run_sphere 2 (configured 3 white black)
                ltac:(discriminate) ltac:(discriminate)) as Hrun.
  destruct (configuration_apart_from_drawing 3 2 0 1 (Sphere 2) _ _ Hrun)
    as (Hfill & _ & _ & Hdraw).
  eexists. split; [exact Hrun |].
  split; [exact Hfill |]. apply Hdraw. reflexivity.
Defined.
